(** * Donation swap matchmaker: a shallow embedding of [matchmaker.py]

    The batch job of the donation swap service removes expired offers and
    matches ([Matchmaker.clean]), pairs up the eligible offers
    ([Matchmaker.find_matches]), records each pair as a match and mails
    both parties ([Matchmaker.process_found_matches]) and finally mails
    the parties of every match both sides agreed to
    ([Matchmaker.process_approved_matches]).

    Python objects are modelled as records, the tri-state agreement flags
    ([None], [True], [False]) as [option bool], timestamps as integers
    counting microseconds (the resolution of [datetime]), and the calls
    into the database, the mail server and the currency service as an
    error-and-state monad over a [World] that keeps the entity registry
    and the ordered trace of effects. *)

From Stdlib Require Import String List ZArith Bool Lia Permutation.
Import ListNotations.
Local Open Scope Z_scope.

(** ** Entities *)

(** A row of the [offers] table, as [entities.Offer] exposes it. *)
Record Offer := mkOffer {
  offer_id : Z;
  email : string;
  amount : Z;
  charity_id : Z;
  country_id : Z;
  secret : string;
  confirmed : bool;
  created_ts : Z
}.

(** A row of the [matches] table.  [None] is "undecided". *)
Record Match := mkMatch {
  match_id : Z;
  match_secret : string;
  new_offer_id : Z;
  old_offer_id : Z;
  new_agrees : option bool;
  old_agrees : option bool;
  match_created_ts : Z
}.

Record Charity := mkCharity { charity_ident : Z; charity_name : string }.

Record Country := mkCountry {
  country_ident : Z;
  country_name : string;
  currency_iso : string   (* [country.currency.iso] *)
}.

Record CharityInCountry := mkCharityInCountry {
  cic_charity_id : Z;
  cic_country_id : Z;
  instructions : string
}.

Definition option_bool_eq_dec (a b : option bool) : {a = b} + {a <> b}.
Proof. repeat decide equality. Defined.

(** Python compares entity objects by identity; an object is modelled by
    its row, so two objects are the same when all their fields agree. *)
Definition Offer_eq_dec (a b : Offer) : {a = b} + {a <> b}.
Proof.
  decide equality;
    auto using Z.eq_dec, string_dec, bool_dec.
Defined.

Definition Match_eq_dec (a b : Match) : {a = b} + {a <> b}.
Proof.
  decide equality;
    auto using Z.eq_dec, string_dec, option_bool_eq_dec.
Defined.

(** ** The compatibility rule *)

(** [Matchmaker._is_good_match] (the log lines are not modelled). *)
Definition _is_good_match (offer1 offer2 : Offer) : bool :=
  if charity_id offer1 =? charity_id offer2 then (* same charity *) false
  else if country_id offer1 =? country_id offer2 then (* same country *) false
  else if String.eqb (email offer1) (email offer2) then (* same email *) false
  else true.

(** ** The matching engine *)

(** [list.pop()]: the last element and the list without it; [None] on the
    empty list (the loop guard [while offers] excludes that case). *)
Fixpoint pop (l : list Offer) : option (Offer * list Offer) :=
  match l with
  | [] => None
  | x :: t =>
      match pop t with
      | None => Some (x, [])
      | Some (y, t') => Some (y, x :: t')
      end
  end.

(** [list.remove(x)]: drops the first element equal to [x].  Python raises
    [ValueError] when there is none; [find_matches] only removes an
    element it has just read from the list (see [list_remove_length]). *)
Fixpoint list_remove (x : Offer) (l : list Offer) : list Offer :=
  match l with
  | [] => []
  | y :: t => if Offer_eq_dec y x then t else y :: list_remove x t
  end.

(** The [while offers:] loop of [find_matches].  Every round pops one
    offer, so [length offers] rounds are enough ([find_matches_loop_fuel]). *)
Fixpoint find_matches_loop (fuel : nat) (offers : list Offer)
    (matches : list (Offer * Offer)) : list (Offer * Offer) :=
  match fuel with
  | O => matches
  | S fuel' =>
      match pop offers with
      | None => matches
      | Some (offer1, offers1) =>
          match find (_is_good_match offer1) offers1 with
          | Some offer2 =>
              find_matches_loop fuel' (list_remove offer2 offers1)
                                (matches ++ [(offer1, offer2)])
          | None => find_matches_loop fuel' offers1 matches
          end
      end
  end.

(** The pairing that [find_matches] computes from the candidate list. *)
Definition pair_up (offers : list Offer) : list (Offer * Offer) :=
  find_matches_loop (length offers) offers [].

(** The offers that occur in a list of pairs. *)
Definition members (pairs : list (Offer * Offer)) : list Offer :=
  flat_map (fun p => [fst p; snd p]) pairs.

(** ** The expiry rules of [clean] *)

(** [datetime.timedelta(days=d)], in microseconds. *)
Definition timedelta (days : Z) : Z := days * 86400 * 1000000.

Definition is_None (flag : option bool) : bool :=
  match flag with None => true | _ => false end.
Definition is_True (flag : option bool) : bool :=
  match flag with Some true => true | _ => false end.
Definition is_False (flag : option bool) : bool :=
  match flag with Some false => true | _ => false end.

(** Truth value of a flag in a boolean context: [None] is false. *)
Definition truthy (flag : option bool) : bool := is_True flag.

(** Line 36: [not x.confirmed and x.created_ts + two_days < now]. *)
Definition offer_expired (now : Z) (x : Offer) : bool :=
  negb (confirmed x) && (created_ts x + timedelta 2 <? now).

(** Line 40: [x.new_agrees is False or x.old_agrees is False]. *)
Definition match_declined (x : Match) : bool :=
  is_False (new_agrees x) || is_False (old_agrees x).

(** Line 44: [x.new_agrees is None or x.old_agrees is None and
    x.created_ts + one_week < now]; [and] binds tighter than [or]. *)
Definition match_stale (now : Z) (x : Match) : bool :=
  is_None (new_agrees x)
  || (is_None (old_agrees x) && (match_created_ts x + timedelta 7 <? now)).

(** Line 48: [x.new_agrees is True and x.old_agrees is True and
    x.created_ts + four_weeks < now]. *)
Definition match_agreed_expired (now : Z) (x : Match) : bool :=
  is_True (new_agrees x) && is_True (old_agrees x)
  && (match_created_ts x + timedelta 28 <? now).

(** Line 192: [x.new_agrees and x.old_agrees]. *)
Definition match_approved (x : Match) : bool :=
  truthy (new_agrees x) && truthy (old_agrees x).

(** ** Notifications *)

(** A value of the [replacements] dictionary: a string or an amount. *)
Inductive Value :=
| VStr (s : string)
| VNum (z : Z).

(** The [replacements] dictionary, in the order the literal lists its
    keys (they are pairwise different). *)
Definition Replacements := list (string * Value).

Fixpoint lookup (key : string) (d : Replacements) : option Value :=
  match d with
  | [] => None
  | (k, v) :: t => if String.eqb k key then Some v else lookup key t
  end.

(** [util.Template(name).replace(replacements).content], kept symbolic:
    the template file and the dictionary it is filled from. *)
Record Content := mkContent {
  template : string;
  substitutions : Replacements
}.

(** The [to] argument of [mail.send]: one address or a list of them. *)
Inductive Recipients :=
| ToOne (address : string)
| ToList (addresses : list string).

Record Mail := mkMail {
  subject : string;
  text : Content;
  html : Content;
  to : Recipients
}.

(** ** The world the batch runs in *)

(** The effects of a run on its collaborators, in the order they occur. *)
Inductive Event :=
| OfferDeleted (o : Offer)
| MatchDeleted (m : Match)
| MatchCreated (m : Match)
| MailSent (msg : Mail).

(** The [logging.info] lines of the stateful methods. *)
Inductive LogMsg :=
| LogEligible (n : nat)
| LogFound (n : nat)
| LogSendingMatchMail (address : string)
| LogDryRunPair (offer1 offer2 : Offer)
| LogCreatingMatch (new_id old_id : Z)
| LogSendingDealMail (old_address new_address : string)
| LogDryRunMatch (m : Match).

Record World := mkWorld {
  offers : list Offer;        (* the registry of [entities.Offer] *)
  matches : list Match;       (* the registry of [entities.Match] *)
  clock : Z;                  (* what [datetime.utcnow] returns *)
  next_match_id : Z;          (* the next key of the [matches] table *)
  secrets_drawn : nat;        (* calls of [create_secret] so far *)
  trace : list Event;         (* effects so far, oldest first *)
  logs : list LogMsg          (* log lines so far, oldest first *)
}.

Definition set_offers (l : list Offer) (w : World) : World :=
  mkWorld l (matches w) (clock w) (next_match_id w) (secrets_drawn w)
          (trace w) (logs w).

Definition set_matches (l : list Match) (w : World) : World :=
  mkWorld (offers w) l (clock w) (next_match_id w) (secrets_drawn w)
          (trace w) (logs w).

Definition record_event (e : Event) (w : World) : World :=
  mkWorld (offers w) (matches w) (clock w) (next_match_id w)
          (secrets_drawn w) (trace w ++ [e]) (logs w).

Definition record_log (l : LogMsg) (w : World) : World :=
  mkWorld (offers w) (matches w) (clock w) (next_match_id w)
          (secrets_drawn w) (trace w) (logs w ++ [l]).

(** What the run cannot decide itself: the reference data, the currency
    service, the source of secrets, the candidate query and whether the
    database or the mail server carries out a request. *)
Record Collaborators := mkCollaborators {
  Charity_by_id : Z -> Charity;
  Country_by_id : Z -> Country;
  by_charity_and_country_id : Z -> Z -> option CharityInCountry;
  convert : Z -> string -> string -> option Z;
  create_secret : nat -> string;
  get_match_candidates : list Offer -> list Match -> Z -> list Offer;
  accepts : list Event -> Event -> bool
}.

(** ** The monad of a run: state, and exceptions that keep the state *)

Inductive Exn :=
| RateUnavailable
| Refused (e : Event)
| KeyError (id : Z).

Inductive Outcome (A : Type) :=
| Returned (a : A)
| Raised (e : Exn).
Arguments Returned {A} a.
Arguments Raised {A} e.

Definition M (A : Type) : Type := World -> Outcome A * World.

Definition ret {A} (a : A) : M A := fun w => (Returned a, w).

Definition raise {A} (e : Exn) : M A := fun w => (Raised e, w).

Definition bind {A B} (m : M A) (f : A -> M B) : M B :=
  fun w =>
    match m w with
    | (Returned a, w') => f a w'
    | (Raised e, w') => (Raised e, w')
    end.

Notation "x <- m ;; k" := (bind m (fun x => k))
  (at level 61, m at next level, right associativity).
Notation "m ;; k" := (bind m (fun _ => k))
  (at level 61, right associativity).

(** [for x in l: body(x)]. *)
Fixpoint for_each {A} (l : list A) (body : A -> M unit) : M unit :=
  match l with
  | [] => ret tt
  | x :: t => body x ;; for_each t body
  end.

Definition log (l : LogMsg) : M unit :=
  fun w => (Returned tt, record_log l w).

Definition utcnow : M Z := fun w => (Returned (clock w), w).

(** ** The methods of [Matchmaker] *)

(** The part of a [Matchmaker] object that its methods branch on. *)
Record Matchmaker := mkMatchmaker { _dry_run : bool }.

Section Methods.

Variable env : Collaborators.

(** Asks a collaborator to carry out [e]; a refusal raises and leaves
    the world as it was. *)
Definition perform (e : Event) (change : World -> World) : M unit :=
  fun w =>
    if accepts env (trace w) e
    then (Returned tt, record_event e (change w))
    else (Raised (Refused e), w).

(** Modelled from the spec: [entities.Offer.get_all] and
    [entities.Match.get_all] (module [entities] is not part of the source
    at hand), "get_all(predicate) -> list<Entity>": the entities of the
    registry that satisfy the predicate, in registry order. *)
Definition Offer_get_all (p : Offer -> bool) : M (list Offer) :=
  fun w => (Returned (filter p (offers w)), w).

Definition Match_get_all (p : Match -> bool) : M (list Match) :=
  fun w => (Returned (filter p (matches w)), w).

(** Modelled from the spec: [entities.Offer.delete] and
    [entities.Match.delete], "delete(entity)": the entity leaves the
    registry. *)
Definition Offer_delete (o : Offer) : M unit :=
  perform (OfferDeleted o)
          (fun w => set_offers (remove Offer_eq_dec o (offers w)) w).

Definition Match_delete (m : Match) : M unit :=
  perform (MatchDeleted m)
          (fun w => set_matches (remove Match_eq_dec m (matches w)) w).

(** Modelled from the spec: [entities.Match.create(db, secret,
    new_offer_id, old_offer_id)], "persist a new Match row (undecided,
    undecided) referencing both Offers": the row gets the next key and the
    current time. *)
Definition Match_create (match_secret : string) (new_offer_id old_offer_id : Z)
    : M Match :=
  fun w =>
    let m := mkMatch (next_match_id w) match_secret new_offer_id old_offer_id
                     None None (clock w) in
    match perform (MatchCreated m)
            (fun w => mkWorld (offers w) (matches w ++ [m]) (clock w)
                              (next_match_id w + 1) (secrets_drawn w)
                              (trace w) (logs w)) w with
    | (Returned _, w') => (Returned m, w')
    | (Raised e, w') => (Raised e, w')
    end.

(** Modelled from the spec: the properties [match.old_offer] and
    [match.new_offer], which resolve the stored identifier in the offer
    registry; an identifier without an offer raises. *)
Definition Offer_by_id (id : Z) : M Offer :=
  fun w =>
    match find (fun o => offer_id o =? id) (offers w) with
    | Some o => (Returned o, w)
    | None => (Raised (KeyError id), w)
    end.

Definition old_offer (m : Match) : M Offer := Offer_by_id (old_offer_id m).
Definition new_offer (m : Match) : M Offer := Offer_by_id (new_offer_id m).

(** [offer.charity] and [offer.country]. *)
Definition charity (o : Offer) : Charity := Charity_by_id env (charity_id o).
Definition country (o : Offer) : Country := Country_by_id env (country_id o).

(** [self._currency.convert]; a missing rate raises. *)
Definition currency_convert (amount : Z) (from to : string) : M Z :=
  match convert env amount from to with
  | Some z => ret z
  | None => raise RateUnavailable
  end.

(** [donationswap.create_secret]. *)
Definition donationswap_create_secret : M string :=
  fun w =>
    (Returned (create_secret env (secrets_drawn w)),
     mkWorld (offers w) (matches w) (clock w) (next_match_id w)
             (S (secrets_drawn w)) (trace w) (logs w)).

(** [self._mail.send]. *)
Definition mail_send (msg : Mail) : M unit := perform (MailSent msg) (fun w => w).

(** [Matchmaker.clean]; it does not read [self._dry_run]. *)
Definition clean (self : Matchmaker) : M unit :=
  now <- utcnow ;;
  (* delete unconfirmed offers after 48 hours *)
  expired <- Offer_get_all (offer_expired now) ;;
  for_each expired Offer_delete ;;
  (* delete declined matches immediately *)
  declined <- Match_get_all match_declined ;;
  for_each declined Match_delete ;;
  (* delete unapproved matches after one week *)
  stale <- Match_get_all (match_stale now) ;;
  for_each stale Match_delete ;;
  (* delete approved matches after four weeks *)
  outdated <- Match_get_all (match_agreed_expired now) ;;
  for_each outdated Match_delete.

(** [Matchmaker.find_matches]. *)
Definition find_matches (self : Matchmaker) : M (list (Offer * Offer)) :=
  offers <- (fun w => (Returned (get_match_candidates env (offers w) (matches w)
                                                       (clock w)), w)) ;;
  log (LogEligible (length offers)) ;;
  let matches := pair_up offers in
  log (LogFound (length matches)) ;;
  ret matches.

(** The [replacements] dictionary of [_send_mail_about_match]. *)
Definition match_replacements (my_offer their_offer : Offer)
    (match_secret : string) (your_amount_in_their_currency : Z)
    : Replacements :=
  [ ("{%YOUR_COUNTRY%}"%string, VStr (country_name (country my_offer)));
    ("{%YOUR_CHARITY%}"%string, VStr (charity_name (charity my_offer)));
    ("{%YOUR_AMOUNT%}"%string, VNum (amount my_offer));
    ("{%YOUR_CURRENCY%}"%string, VStr (currency_iso (country my_offer)));
    ("{%THEIR_COUNTRY%}"%string, VStr (country_name (country their_offer)));
    ("{%THEIR_CHARITY%}"%string, VStr (charity_name (charity their_offer)));
    ("{%THEIR_AMOUNT%}"%string, VNum (amount their_offer));
    ("{%THEIR_CURRENCY%}"%string, VStr (currency_iso (country their_offer)));
    ("{%THEIR_AMOUNT_CONVERTED%}"%string, VNum your_amount_in_their_currency);
    ("{%SECRET%}"%string, VStr (String.append (secret my_offer) match_secret))
    (* Do NOT put their email address here.
       Wait until both parties approved the match. *)
  ].

(** [Matchmaker._send_mail_about_match]. *)
Definition _send_mail_about_match (my_offer their_offer : Offer)
    (match_secret : string) : M unit :=
  your_amount_in_their_currency <-
    currency_convert (amount their_offer)
                     (currency_iso (country their_offer))
                     (currency_iso (country my_offer)) ;;
  let replacements :=
    match_replacements my_offer their_offer match_secret
                       your_amount_in_their_currency in
  log (LogSendingMatchMail (email my_offer)) ;;
  mail_send
    (mkMail "We may have found a matching donation for you"
            (mkContent "match-suggested-email.txt" replacements)
            (mkContent "match-suggested-email.html" replacements)
            (ToOne (email my_offer))).

(** [Matchmaker.process_found_matches]. *)
Definition process_found_matches (self : Matchmaker)
    (matches : list (Offer * Offer)) : M unit :=
  for_each matches (fun pair =>
    let offer1 := fst pair in
    let offer2 := snd pair in
    if _dry_run self then log (LogDryRunPair offer1 offer2)
    else
      match_secret <- donationswap_create_secret ;;
      let old_offer :=
        if created_ts offer1 <? created_ts offer2 then offer1 else offer2 in
      let new_offer :=
        if created_ts offer1 <? created_ts offer2 then offer2 else offer1 in
      log (LogCreatingMatch (offer_id new_offer) (offer_id old_offer)) ;;
      Match_create match_secret (offer_id new_offer) (offer_id old_offer) ;;
      _send_mail_about_match old_offer new_offer match_secret ;;
      _send_mail_about_match new_offer old_offer match_secret).

Definition no_instructions : string :=
  "Sorry, there are no instructions available (yet).".

(** Lines 154 to 164: the instructions of a charity in a country, or the
    placeholder when [by_charity_and_country_id] returns [None]. *)
Definition instructions_for (charity_id country_id : Z) : string :=
  match by_charity_and_country_id env charity_id country_id with
  | Some tmp => instructions tmp
  | None => no_instructions
  end.

(** The [replacements] dictionary of [_send_mail_about_deal]. *)
Definition deal_replacements (old_offer new_offer : Offer)
    (old_amount_in_new_currency new_amount_in_old_currency : Z)
    (old_instructions new_instructions : string) : Replacements :=
  [ ("{%OLD_COUNTRY%}"%string, VStr (country_name (country old_offer)));
    ("{%OLD_CHARITY%}"%string, VStr (charity_name (charity old_offer)));
    ("{%OLD_AMOUNT%}"%string, VNum (amount old_offer));
    ("{%OLD_CURRENCY%}"%string, VStr (currency_iso (country old_offer)));
    ("{%OLD_EMAIL%}"%string, VStr (email old_offer));
    ("{%OLD_AMOUNT_CONVERTED%}"%string, VNum old_amount_in_new_currency);
    ("{%OLD_INSTRUCTIONS%}"%string, VStr old_instructions);
    ("{%NEW_COUNTRY%}"%string, VStr (country_name (country new_offer)));
    ("{%NEW_CHARITY%}"%string, VStr (charity_name (charity new_offer)));
    ("{%NEW_AMOUNT%}"%string, VNum (amount new_offer));
    ("{%NEW_CURRENCY%}"%string, VStr (currency_iso (country new_offer)));
    ("{%NEW_EMAIL%}"%string, VStr (email new_offer));
    ("{%NEW_AMOUNT_CONVERTED%}"%string, VNum new_amount_in_old_currency);
    ("{%NEW_INSTRUCTIONS%}"%string, VStr new_instructions) ].

(** [Matchmaker._send_mail_about_deal]. *)
Definition _send_mail_about_deal (old_offer new_offer : Offer) : M unit :=
  old_amount_in_new_currency <-
    currency_convert (amount old_offer)
                     (currency_iso (country old_offer))
                     (currency_iso (country new_offer)) ;;
  new_amount_in_old_currency <-
    currency_convert (amount new_offer)
                     (currency_iso (country new_offer))
                     (currency_iso (country old_offer)) ;;
  let old_instructions :=
    instructions_for (charity_ident (charity new_offer))
                     (country_ident (country new_offer)) in
  let new_instructions :=
    instructions_for (charity_ident (charity old_offer))
                     (country_ident (country new_offer)) in
  let replacements :=
    deal_replacements old_offer new_offer old_amount_in_new_currency
                      new_amount_in_old_currency old_instructions
                      new_instructions in
  log (LogSendingDealMail (email old_offer) (email new_offer)) ;;
  mail_send
    (mkMail "Here is your match!"
            (mkContent "match-approved-email.txt" replacements)
            (mkContent "match-approved-email.html" replacements)
            (ToList [email old_offer; email new_offer])).

(** [Matchmaker.process_approved_matches]. *)
Definition process_approved_matches (self : Matchmaker) : M unit :=
  approved_matches <- Match_get_all match_approved ;;
  for_each approved_matches (fun m =>
    if _dry_run self then log (LogDryRunMatch m)
    else
      old <- old_offer m ;;
      new <- new_offer m ;;
      _send_mail_about_deal old new ;;
      Match_delete m).

(** [main], with the [--doit] switch as its argument. *)
Definition main (doit : bool) : M unit :=
  let matchmaker := mkMatchmaker (negb doit) in
  clean matchmaker ;;
  matches <- find_matches matchmaker ;;
  process_found_matches matchmaker matches ;;
  process_approved_matches matchmaker.

End Methods.

(** ** Auxiliary notions of the statements *)

(** Durations in microseconds, the unit of [created_ts] and [clock]. *)
Definition one_second : Z := 1000000.
Definition one_hour : Z := 3600 * one_second.
Definition one_day : Z := 24 * one_hour.

(** [offer] with another pledged amount. *)
Definition with_amount (z : Z) (o : Offer) : Offer :=
  mkOffer (offer_id o) (email o) z (charity_id o) (country_id o) (secret o)
          (confirmed o) (created_ts o).

(** What has been added to the trace between two worlds of one run. *)
Definition events_since (w w' : World) : list Event :=
  skipn (length (trace w)) (trace w').

(** The registry after deleting the entities of [gone] one by one. *)
Definition remove_all {A : Type} (eq_dec : forall a b : A, {a = b} + {a <> b})
    (gone l : list A) : list A :=
  fold_left (fun acc x => remove eq_dec x acc) gone l.

(** The registry of matches after the three sweeps over the matches. *)
Definition matches_declined_swept (w : World) : list Match :=
  filter (fun m => negb (match_declined m)) (matches w).
Definition matches_stale_swept (w : World) : list Match :=
  filter (fun m => negb (match_stale (clock w) m)) (matches_declined_swept w).
Definition matches_outdated_swept (w : World) : list Match :=
  filter (fun m => negb (match_agreed_expired (clock w) m))
         (matches_stale_swept w).


(** [o] with another owner address. *)
Definition with_email (address : string) (o : Offer) : Offer :=
  mkOffer (offer_id o) address (amount o) (charity_id o) (country_id o)
          (secret o) (confirmed o) (created_ts o).

(** The collaborators with another table of localized instructions. *)
Definition with_instructions (table : Z -> Z -> option CharityInCountry)
    (env : Collaborators) : Collaborators :=
  mkCollaborators (Charity_by_id env) (Country_by_id env) table (convert env)
                  (create_secret env) (get_match_candidates env) (accepts env).

(** The message [_send_mail_about_match] hands to [mail.send], given the
    converted amount. *)
Definition suggested_mail (env : Collaborators) (my_offer their_offer : Offer)
    (match_secret : string) (converted : Z) : Mail :=
  let replacements :=
    match_replacements env my_offer their_offer match_secret converted in
  mkMail "We may have found a matching donation for you"
         (mkContent "match-suggested-email.txt" replacements)
         (mkContent "match-suggested-email.html" replacements)
         (ToOne (email my_offer)).

(** The message [_send_mail_about_deal] hands to [mail.send], given the
    two converted amounts. *)
Definition deal_mail (env : Collaborators) (old_offer new_offer : Offer)
    (old_converted new_converted : Z) : Mail :=
  let replacements :=
    deal_replacements env old_offer new_offer old_converted new_converted
      (instructions_for env (charity_ident (charity env new_offer))
                        (country_ident (country env new_offer)))
      (instructions_for env (charity_ident (charity env old_offer))
                        (country_ident (country env new_offer))) in
  mkMail "Here is your match!"
         (mkContent "match-approved-email.txt" replacements)
         (mkContent "match-approved-email.html" replacements)
         (ToList [email old_offer; email new_offer]).

(** The two offers a match refers to, resolved in a registry. *)
Definition parties (registry : list Offer) (m : Match) : option (Offer * Offer) :=
  match find (fun o => offer_id o =? old_offer_id m) registry,
        find (fun o => offer_id o =? new_offer_id m) registry with
  | Some old, Some new => Some (old, new)
  | _, _ => None
  end.

(** The deal message of a match, when its offers resolve and both
    conversions have a rate. *)
Definition deal_mail_of (env : Collaborators) (registry : list Offer)
    (m : Match) : option Mail :=
  match parties registry m with
  | Some (old, new) =>
      match convert env (amount old) (currency_iso (country env old))
                    (currency_iso (country env new)),
            convert env (amount new) (currency_iso (country env new))
                    (currency_iso (country env old)) with
      | Some c1, Some c2 => Some (deal_mail env old new c1 c2)
      | _, _ => None
      end
  | None => None
  end.

(** The effects of finalizing the matches of [ms] one after the other. *)
Definition finalize_events (env : Collaborators) (registry : list Offer)
    (ms : list Match) : list Event :=
  flat_map (fun m =>
              match deal_mail_of env registry m with
              | Some msg => [MailSent msg; MatchDeleted m]
              | None => []
              end) ms.

(** The body of the loop of [process_approved_matches] outside a dry run. *)
Definition finalize_one (env : Collaborators) (m : Match) : M unit :=
  old <- old_offer m ;;
  new <- new_offer m ;;
  _send_mail_about_deal env old new ;;
  Match_delete env m.

(** ** Sample data *)

Module Sample.

Definition day (d : Z) : Z := d * one_day.

Definition alice : Offer :=
  mkOffer 1 "alice@example.org" 100 1 10 "a1" true (day 1).
Definition bob : Offer :=
  mkOffer 2 "bob@example.org" 80 2 20 "b2" true (day 5).
Definition carol : Offer :=
  mkOffer 3 "carol@example.org" 50 1 30 "c3" true (day 6).
(** Unconfirmed and three days old on day 10. *)
Definition dave : Offer :=
  mkOffer 4 "dave@example.org" 20 3 40 "d4" false (day 7).

Definition erin : Offer :=
  mkOffer 5 "erin@example.org" 60 2 50 "e5" true (day 8).
Definition frank : Offer :=
  mkOffer 6 "frank@example.org" 70 3 60 "f6" true (day 9).

(** Both sides agreed. *)
Definition agreed : Match :=
  mkMatch 1 "m1" 2 1 (Some true) (Some true) (day 8).
(** The old side has been undecided for nine days. *)
Definition overdue : Match :=
  mkMatch 2 "m2" 3 1 (Some true) None (day 1).
(** The old side has been undecided for one day. *)
Definition recent : Match :=
  mkMatch 3 "m3" 3 2 (Some true) None (day 9).

(** Collaborators that know every charity and country, convert at par,
    have no localized instructions and carry out every request. *)
Definition env : Collaborators :=
  mkCollaborators
    (fun id => mkCharity id "a charity")
    (fun id => mkCountry id "a country" "EUR")
    (fun _ _ => None)
    (fun amount _ _ => Some amount)
    (fun _ => "secret"%string)
    (fun offers matches _ =>
       filter (fun o =>
                 confirmed o
                 && negb (existsb (fun m => (new_offer_id m =? offer_id o)
                                            || (old_offer_id m =? offer_id o))
                                  matches))
              offers)
    (fun _ _ => true).

(** The same collaborators with a database that refuses to delete matches. *)
Definition env_no_delete : Collaborators :=
  mkCollaborators (Charity_by_id env) (Country_by_id env)
    (by_charity_and_country_id env) (convert env) (create_secret env)
    (get_match_candidates env)
    (fun _ e => match e with MatchDeleted _ => false | _ => true end).

Definition committing : Matchmaker := mkMatchmaker false.

(** Day 10: six offers, one of them expired, and three matches. *)
Definition world : World :=
  mkWorld [alice; bob; carol; dave; erin; frank] [agreed; overdue; recent]
          (day 10) 4 0 [] [].

Definition world_cleaned : World :=
  Eval vm_compute in snd (clean env committing world).

(** Day 10: two offers without a match. *)
Definition unmatched : World :=
  mkWorld [alice; bob] [] (day 10) 1 0 [] [].

Definition unmatched_proposed : World :=
  Eval vm_compute in snd (process_found_matches env committing [(bob, alice)] unmatched).

(** Day 10: one match, agreed by both sides. *)
Definition settled : World :=
  mkWorld [alice; bob] [agreed] (day 10) 2 0 [] [].

Definition settled_finalized : World :=
  Eval vm_compute in snd (process_approved_matches env committing settled).

Definition settled_refused : World :=
  Eval vm_compute in
    snd (process_approved_matches env_no_delete committing settled).

(** What [main] leaves of [world] when run without [--doit]. *)
Definition world_dry_run : World :=
  Eval vm_compute in snd (main env false world).

(** Instructions for every charity in the country of [alice] only. *)
Definition table_for_country_10 (c k : Z) : option CharityInCountry :=
  if k =? 10 then Some (mkCharityInCountry c k "Wire the money.") else None.

End Sample.

(** ** Further notions: what a run leaves behind *)

(** Two offers that [_is_good_match] rejects. *)
Definition incompatible (a b : Offer) : Prop := _is_good_match a b = false.

(** The entities whose deletion, the matches whose creation and the mails
    whose sending a list of effects records. *)
Definition deleted_offers (evs : list Event) : list Offer :=
  flat_map (fun e => match e with OfferDeleted o => [o] | _ => [] end) evs.
Definition deleted_matches (evs : list Event) : list Match :=
  flat_map (fun e => match e with MatchDeleted m => [m] | _ => [] end) evs.
Definition created_matches (evs : list Event) : list Match :=
  flat_map (fun e => match e with MatchCreated m => [m] | _ => [] end) evs.
Definition sent_mails (evs : list Event) : list Mail :=
  flat_map (fun e => match e with MailSent msg => [msg] | _ => [] end) evs.

(** The matches the three sweeps of [clean] select at time [now]. *)
Definition match_swept (now : Z) (m : Match) : bool :=
  match_declined m || match_stale now m || match_agreed_expired now m.

(** An effect [clean] may have on the world [w0] it starts in: the
    deletion of an expired offer or of a swept match of the registry. *)
Definition cleanup_event (w0 : World) (e : Event) : Prop :=
  match e with
  | OfferDeleted o => In o (offers w0) /\ offer_expired (clock w0) o = true
  | MatchDeleted m => In m (matches w0) /\ match_swept (clock w0) m = true
  | _ => False
  end.

(** ** Further sample data *)

Module More.

(** The new side declined the day before. *)
Definition declined : Match :=
  mkMatch 5 "m5" 6 5 (Some false) None (Sample.day 9).
(** Agreed by both sides thirty days ago. *)
Definition old_deal : Match :=
  mkMatch 6 "m6" 3 2 (Some true) (Some true) (Sample.day (-20)).

(** Day 10: the offers of [Sample.world] and five matches. *)
Definition world : World :=
  mkWorld [Sample.alice; Sample.bob; Sample.carol; Sample.dave; Sample.erin;
           Sample.frank]
          [Sample.agreed; declined; Sample.overdue; old_deal; Sample.recent]
          (Sample.day 10) 7 0 [] [].

Definition world_cleaned : World :=
  Eval vm_compute in snd (clean Sample.env Sample.committing world).

(** What is left of [world] when the database refuses to delete matches. *)
Definition world_clean_refused : World :=
  Eval vm_compute in snd (clean Sample.env_no_delete Sample.committing world).

(** Created at the very time of [Sample.bob]. *)
Definition gina : Offer :=
  mkOffer 7 "gina@example.org" 30 4 70 "g7" true (Sample.day 5).

(** Day 10: two offers of the same creation time and no match. *)
Definition twins : World :=
  mkWorld [Sample.bob; gina] [] (Sample.day 10) 1 0 [] [].

Definition twins_proposed : World :=
  Eval vm_compute in
    snd (process_found_matches Sample.env Sample.committing
           [(Sample.bob, gina)] twins).

(** [Sample.world] after a run of [main] with [--doit]. *)
Definition world_done : World :=
  Eval vm_compute in snd (main Sample.env true Sample.world).

End More.

(** ** Further notions: proposals *)

(** The offer lines 132 to 135 take as the old one of a pair, and the
    other one. *)
Definition older (pair : Offer * Offer) : Offer :=
  if created_ts (fst pair) <? created_ts (snd pair) then fst pair else snd pair.
Definition newer (pair : Offer * Offer) : Offer :=
  if created_ts (fst pair) <? created_ts (snd pair) then snd pair else fst pair.

(** The body of the loop of [process_found_matches] outside a dry run. *)
Definition propose_one (env : Collaborators) (pair : Offer * Offer) : M unit :=
  match_secret <- donationswap_create_secret env ;;
  log (LogCreatingMatch (offer_id (newer pair)) (offer_id (older pair))) ;;
  Match_create env match_secret (offer_id (newer pair)) (offer_id (older pair)) ;;
  _send_mail_about_match env (older pair) (newer pair) match_secret ;;
  _send_mail_about_match env (newer pair) (older pair) match_secret.

(** The effects of one completed proposal: the match, the mail to the
    owner of the old offer and the mail to the owner of the new one. *)
Definition proposal_events (t : Match * Mail * Mail) : list Event :=
  [MatchCreated (fst (fst t)); MailSent (snd (fst t)); MailSent (snd t)].

(** What ties the three effects of a proposal to its pair. *)
Definition proposal_of (pair : Offer * Offer) (t : Match * Mail * Mail) : Prop :=
  let m := fst (fst t) in
  let msg_old := snd (fst t) in
  let msg_new := snd t in
  old_offer_id m = offer_id (older pair)
  /\ new_offer_id m = offer_id (newer pair)
  /\ old_agrees m = None /\ new_agrees m = None
  /\ to msg_old = ToOne (email (older pair))
  /\ to msg_new = ToOne (email (newer pair))
  /\ lookup "{%SECRET%}" (substitutions (text msg_old))
     = Some (VStr (String.append (secret (older pair)) (match_secret m)))
  /\ lookup "{%SECRET%}" (substitutions (text msg_new))
     = Some (VStr (String.append (secret (newer pair)) (match_secret m))).

(** The effects an interrupted proposal leaves: nothing, the match alone,
    or the match and the first mail. *)
Definition unfinished_proposal (evs : list Event) : Prop :=
  evs = []
  \/ (exists m, evs = [MatchCreated m])
  \/ (exists m msg, evs = [MatchCreated m; MailSent msg]).
(** * Properties *)

(** ** The compatibility rule *)

Lemma is_good_match_sym (a b : Offer) :
  _is_good_match a b = _is_good_match b a.
Proof.
  unfold _is_good_match.
  rewrite (Z.eqb_sym (charity_id b)), (Z.eqb_sym (country_id b)),
    (String.eqb_sym (email b)).
  reflexivity.
Qed.

(** C4: [_is_good_match] rejects a pair exactly when the two offers share
    the charity, the country or the owner's email, and accepts it
    otherwise; the pledged amounts play no role, and the order of the two
    offers does not matter. *)
Theorem is_good_match_spec (a b : Offer) :
  (_is_good_match a b = false <->
     charity_id a = charity_id b \/ country_id a = country_id b
     \/ email a = email b)
  /\ (_is_good_match a b = true <->
        charity_id a <> charity_id b /\ country_id a <> country_id b
        /\ email a <> email b)
  /\ (forall x y,
        _is_good_match (with_amount x a) (with_amount y b) = _is_good_match a b)
  /\ _is_good_match a b = _is_good_match b a.
Proof.
  split; [| split; [| split; [reflexivity | apply is_good_match_sym]]];
  unfold _is_good_match;
  destruct (Z.eqb_spec (charity_id a) (charity_id b)) as [Hc | Hc];
    destruct (Z.eqb_spec (country_id a) (country_id b)) as [Hk | Hk];
    destruct (String.eqb_spec (email a) (email b)) as [He | He];
    split; intros; auto; try discriminate; tauto.
Qed.

(** ** The matching engine *)

Lemma pop_None (l : list Offer) : pop l = None -> l = [].
Proof.
  destruct l as [| x t]; simpl; [reflexivity |].
  destruct (pop t) as [[y t'] |]; discriminate.
Qed.

Lemma pop_Some (l : list Offer) x rest :
  pop l = Some (x, rest) -> l = rest ++ [x].
Proof.
  revert x rest; induction l as [| y t IH]; simpl; intros x rest H.
  - discriminate.
  - destruct (pop t) as [[z t'] |] eqn:E.
    + inversion H; subst. rewrite (IH _ _ eq_refl). reflexivity.
    + inversion H; subst. rewrite (pop_None _ E). reflexivity.
Qed.

Lemma list_remove_Permutation x (l : list Offer) :
  In x l -> Permutation l (x :: list_remove x l).
Proof.
  induction l as [| y t IH]; simpl; intros H; [contradiction |].
  destruct (Offer_eq_dec y x) as [-> | Hne]; [reflexivity |].
  destruct H as [H | H]; [congruence |].
  rewrite (IH H) at 1. apply perm_swap.
Qed.

(** The [ValueError] branch of [list.remove] is not reached for an
    element of the list: exactly one element goes away. *)
Lemma list_remove_length x (l : list Offer) :
  In x l -> S (length (list_remove x l)) = length l.
Proof.
  intros H. apply list_remove_Permutation, Permutation_length in H.
  simpl in H. congruence.
Qed.

Lemma members_app p q : members (p ++ q) = members p ++ members q.
Proof. unfold members. apply flat_map_app. Qed.

Lemma find_matches_loop_good fuel :
  forall offers acc,
    Forall (fun p => _is_good_match (fst p) (snd p) = true) acc ->
    Forall (fun p => _is_good_match (fst p) (snd p) = true)
           (find_matches_loop fuel offers acc).
Proof.
  induction fuel as [| fuel IH]; simpl; intros offers acc Hacc; [assumption |].
  destruct (pop offers) as [[offer1 offers1] |]; [| assumption].
  destruct (find (_is_good_match offer1) offers1) as [offer2 |] eqn:Ef.
  - apply IH. apply Forall_app; split; [assumption |].
    constructor; [| constructor]. simpl. apply (find_some _ _ Ef).
  - apply IH; assumption.
Qed.

(** Every offer of the result is one occurrence of the input: the pairs
    use up distinct positions of the candidate list. *)
Lemma find_matches_loop_Permutation fuel :
  forall offers acc,
    exists rest,
      Permutation (members (find_matches_loop fuel offers acc) ++ rest)
                  (members acc ++ offers).
Proof.
  induction fuel as [| fuel IH]; simpl; intros offers acc.
  - exists offers. reflexivity.
  - destruct (pop offers) as [[offer1 offers1] |] eqn:Ep.
    + apply pop_Some in Ep. subst offers.
      destruct (find (_is_good_match offer1) offers1) as [offer2 |] eqn:Ef.
      * destruct (IH (list_remove offer2 offers1) (acc ++ [(offer1, offer2)]))
          as [rest Hrest].
        exists rest. rewrite Hrest, members_app. simpl.
        rewrite <- !app_assoc. apply Permutation_app_head. simpl.
        apply find_some in Ef. destruct Ef as [Hin _].
        rewrite (list_remove_Permutation offer2 offers1 Hin) at 2.
        change (offer1 :: offer2 :: list_remove offer2 offers1)
          with ([offer1] ++ (offer2 :: list_remove offer2 offers1)).
        apply Permutation_app_comm.
      * destruct (IH offers1 acc) as [rest Hrest].
        exists (offer1 :: rest).
        rewrite <- Permutation_middle, Hrest.
        rewrite app_assoc. apply Permutation_cons_append.
    + exists offers. reflexivity.
Qed.

(** The loop stops because the list is empty, not because the rounds run
    out: more rounds than [length offers] change nothing. *)
Lemma find_matches_loop_fuel fuel :
  forall offers acc extra,
    (length offers <= fuel)%nat ->
    find_matches_loop (fuel + extra) offers acc
    = find_matches_loop fuel offers acc.
Proof.
  induction fuel as [| fuel IH]; intros offers acc extra Hlen.
  - destruct offers; [| simpl in Hlen; lia].
    destruct extra; reflexivity.
  - simpl. destruct (pop offers) as [[offer1 offers1] |] eqn:Ep; [| reflexivity].
    apply pop_Some in Ep. subst offers. rewrite length_app in Hlen. simpl in Hlen.
    destruct (find (_is_good_match offer1) offers1) as [offer2 |] eqn:Ef.
    + apply IH. apply find_some in Ef. destruct Ef as [Hin _].
      apply list_remove_length in Hin. lia.
    + apply IH. lia.
Qed.

(** C3: on a list of distinct offers, every pair that [find_matches] emits
    passes [_is_good_match], no offer occurs in two pairs (or twice in
    one), every paired offer is a candidate, and an offer without a
    partner is just absent from the result. *)
Theorem find_matches_pairs_good_and_disjoint (offers : list Offer)
    (Hdistinct : NoDup (map offer_id offers)) :
  Forall (fun p => _is_good_match (fst p) (snd p) = true) (pair_up offers)
  /\ NoDup (map offer_id (members (pair_up offers)))
  /\ NoDup (members (pair_up offers))
  /\ incl (members (pair_up offers)) offers
  /\ (forall a, (forall b, In b offers -> _is_good_match a b = false) ->
                ~ In a (members (pair_up offers))).
Proof.
  unfold pair_up.
  destruct (find_matches_loop_Permutation (length offers) offers [])
    as [rest Hperm]. simpl in Hperm.
  assert (Hids : NoDup (map offer_id
            (members (find_matches_loop (length offers) offers [])))).
  { assert (H : NoDup (map offer_id
        (members (find_matches_loop (length offers) offers []) ++ rest))).
    { eapply Permutation_NoDup; [| exact Hdistinct].
      apply Permutation_map. symmetry. exact Hperm. }
    rewrite map_app in H. exact (NoDup_app_remove_r _ _ H). }
  assert (Hgood := find_matches_loop_good (length offers) offers []
                     (Forall_nil _)).
  assert (Hincl : incl (members (find_matches_loop (length offers) offers []))
                       offers).
  { intros x Hx. eapply Permutation_in; [exact Hperm |].
    apply in_or_app. left. exact Hx. }
  repeat split.
  - exact Hgood.
  - exact Hids.
  - exact (NoDup_map_inv _ _ Hids).
  - exact Hincl.
  - intros a Hnone Ha.
    assert (Hpair : exists p,
              In p (find_matches_loop (length offers) offers [])
              /\ In a [fst p; snd p])
      by (apply in_flat_map; exact Ha).
    destruct Hpair as [[x y] [Hp Hxy]].
    assert (Hx : In x offers).
    { apply Hincl, in_flat_map. exists (x, y). simpl. auto. }
    assert (Hy : In y offers).
    { apply Hincl, in_flat_map. exists (x, y). simpl. auto. }
    rewrite Forall_forall in Hgood. specialize (Hgood _ Hp). simpl in *.
    destruct Hxy as [E | [E | []]]; subst a.
    + rewrite (Hnone y Hy) in Hgood. discriminate.
    + rewrite is_good_match_sym, (Hnone x Hx) in Hgood. discriminate.
Qed.

(** ** Reasoning about runs *)

Lemma bind_Returned {A B} (m : M A) (f : A -> M B) w b w' :
  bind m f w = (Returned b, w') ->
  exists a w1, m w = (Returned a, w1) /\ f a w1 = (Returned b, w').
Proof.
  unfold bind. destruct (m w) as [[a | e] w1]; intros H.
  - exists a, w1. auto.
  - discriminate.
Qed.

Lemma bind_Raised {A B} (m : M A) (f : A -> M B) w e w' :
  bind m f w = (Raised e, w') ->
  m w = (Raised e, w')
  \/ exists a w1, m w = (Returned a, w1) /\ f a w1 = (Raised e, w').
Proof.
  unfold bind. destruct (m w) as [[a | e1] w1]; intros H.
  - right. exists a, w1. auto.
  - left. inversion H. reflexivity.
Qed.

Lemma perform_Returned env e change w u w' :
  perform env e change w = (Returned u, w') ->
  accepts env (trace w) e = true /\ w' = record_event e (change w).
Proof.
  unfold perform. destruct (accepts env (trace w) e); intros H.
  - inversion H. auto.
  - discriminate.
Qed.

Lemma perform_Raised env e change w x w' :
  perform env e change w = (Raised x, w') ->
  accepts env (trace w) e = false /\ x = Refused e /\ w' = w.
Proof.
  unfold perform. destruct (accepts env (trace w) e); intros H.
  - discriminate.
  - inversion H. auto.
Qed.

Lemma world_eta w :
  w = mkWorld (offers w) (matches w) (clock w) (next_match_id w)
              (secrets_drawn w) (trace w) (logs w).
Proof. destruct w; reflexivity. Qed.

Lemma events_since_app w w' l :
  trace w' = trace w ++ l -> events_since w w' = l.
Proof.
  intros H. unfold events_since. rewrite H.
  rewrite skipn_app, skipn_all, Nat.sub_diag. reflexivity.
Qed.

Section RemoveAll.

Context {A : Type} (eq_dec : forall a b : A, {a = b} + {a <> b}).

Lemma In_remove_all gone : forall l x,
  In x (remove_all eq_dec gone l) <-> In x l /\ ~ In x gone.
Proof.
  unfold remove_all.
  induction gone as [| g gone IH]; simpl; intros l x; [tauto |].
  rewrite IH. split.
  - intros [Hin Hgone]. apply in_remove in Hin. intuition congruence.
  - intros [Hin Hgone]. split; [apply in_in_remove |]; intuition congruence.
Qed.

Lemma remove_as_filter x (l : list A) :
  remove eq_dec x l = filter (fun y => if eq_dec x y then false else true) l.
Proof.
  induction l as [| y t IH]; simpl; [reflexivity |].
  destruct (eq_dec x y); simpl; congruence.
Qed.

Lemma filter_filter (p q : A -> bool) (l : list A) :
  filter p (filter q l) = filter (fun y => q y && p y) l.
Proof.
  induction l as [| y t IH]; simpl; [reflexivity |].
  destruct (q y); simpl; [destruct (p y) |]; congruence.
Qed.

Lemma remove_all_as_filter gone : forall l,
  remove_all eq_dec gone l
  = filter (fun y => negb (if in_dec eq_dec y gone then true else false)) l.
Proof.
  unfold remove_all.
  induction gone as [| g gone IH]; simpl; intros l.
  - symmetry. apply forallb_filter_id, forallb_forall. reflexivity.
  - rewrite IH, remove_as_filter, filter_filter.
    apply filter_ext. intros y.
    destruct (eq_dec g y) as [E | E]; simpl; [reflexivity |].
    destruct (in_dec eq_dec y gone); reflexivity.
Qed.

(** A sweep: deleting every entity that satisfies [p] keeps exactly the
    others, in their order. *)
Lemma remove_all_filter (p : A -> bool) (l : list A) :
  remove_all eq_dec (filter p l) l = filter (fun y => negb (p y)) l.
Proof.
  rewrite remove_all_as_filter. apply filter_ext_in. intros y Hy.
  destruct (in_dec eq_dec y (filter p l)) as [Hin | Hout]; simpl.
  - apply filter_In in Hin. destruct Hin as [_ ->]. reflexivity.
  - destruct (p y) eqn:E; [| reflexivity].
    exfalso. apply Hout, filter_In. auto.
Qed.

End RemoveAll.

(** ** The cleanup pass *)

Section Cleanup.

Variable env : Collaborators.

Lemma delete_offers_Returned gone : forall w w',
  for_each gone (Offer_delete env) w = (Returned tt, w') ->
  w' = mkWorld (remove_all Offer_eq_dec gone (offers w)) (matches w) (clock w)
               (next_match_id w) (secrets_drawn w)
               (trace w ++ map OfferDeleted gone) (logs w).
Proof.
  induction gone as [| o gone IH]; simpl; intros w w' H.
  - inversion H. rewrite app_nil_r. apply world_eta.
  - apply bind_Returned in H. destruct H as ([] & w1 & Hdel & Hrest).
    apply perform_Returned in Hdel. destruct Hdel as [_ ->].
    rewrite (IH _ _ Hrest). simpl. rewrite <- app_assoc. reflexivity.
Qed.

Lemma delete_matches_Returned gone : forall w w',
  for_each gone (Match_delete env) w = (Returned tt, w') ->
  w' = mkWorld (offers w) (remove_all Match_eq_dec gone (matches w)) (clock w)
               (next_match_id w) (secrets_drawn w)
               (trace w ++ map MatchDeleted gone) (logs w).
Proof.
  induction gone as [| m gone IH]; simpl; intros w w' H.
  - inversion H. rewrite app_nil_r. apply world_eta.
  - apply bind_Returned in H. destruct H as ([] & w1 & Hdel & Hrest).
    apply perform_Returned in Hdel. destruct Hdel as [_ ->].
    rewrite (IH _ _ Hrest). simpl. rewrite <- app_assoc. reflexivity.
Qed.

(** A run of [clean] that returns has deleted, in this order, the expired
    offers, the declined matches, the stale ones among the remaining
    matches and the long agreed ones among what is left then. *)
Lemma clean_Returned self w w' :
  clean env self w = (Returned tt, w') ->
  w' = mkWorld
         (filter (fun o => negb (offer_expired (clock w) o)) (offers w))
         (matches_outdated_swept w)
         (clock w) (next_match_id w) (secrets_drawn w)
         (trace w
          ++ map OfferDeleted (filter (offer_expired (clock w)) (offers w))
          ++ map MatchDeleted (filter match_declined (matches w))
          ++ map MatchDeleted
               (filter (match_stale (clock w)) (matches_declined_swept w))
          ++ map MatchDeleted
               (filter (match_agreed_expired (clock w)) (matches_stale_swept w)))
         (logs w).
Proof.
  unfold clean, utcnow, Offer_get_all, Match_get_all. intros H.
  repeat (apply bind_Returned in H;
          let a := fresh "a" in
          let w1 := fresh "w" in
          let E := fresh "E" in
          destruct H as (a & w1 & E & H);
          try match goal with u : unit |- _ => destruct u end).
  inversion E; subst; clear E.
  inversion E0; subst; clear E0.
  apply delete_offers_Returned in E1. subst w2. simpl in *.
  inversion E2; subst; clear E2.
  apply delete_matches_Returned in E3. subst w4. simpl in *.
  inversion E4; subst; clear E4.
  apply delete_matches_Returned in E5. subst w6. simpl in *.
  inversion E6; subst; clear E6.
  apply delete_matches_Returned in H. subst w'. simpl.
  unfold matches_outdated_swept, matches_stale_swept, matches_declined_swept.
  rewrite !remove_all_filter, <- !app_assoc. reflexivity.
Qed.

(** [clean] returns whenever the database carries out every deletion. *)
Lemma for_each_delete_offers_total gone :
  (forall h e, accepts env h e = true) ->
  forall w, exists w', for_each gone (Offer_delete env) w = (Returned tt, w').
Proof.
  intros Hok. induction gone as [| o gone IH]; simpl; intros w.
  - exists w. reflexivity.
  - unfold bind, Offer_delete, perform. rewrite Hok. apply IH.
Qed.

Lemma for_each_delete_matches_total gone :
  (forall h e, accepts env h e = true) ->
  forall w, exists w', for_each gone (Match_delete env) w = (Returned tt, w').
Proof.
  intros Hok. induction gone as [| o gone IH]; simpl; intros w.
  - exists w. reflexivity.
  - unfold bind, Match_delete, perform. rewrite Hok. apply IH.
Qed.

Lemma clean_total self w :
  (forall h e, accepts env h e = true) ->
  exists w', clean env self w = (Returned tt, w').
Proof.
  intros Hok. unfold clean, utcnow, Offer_get_all, Match_get_all, bind at 1 2.
  destruct (for_each_delete_offers_total
              (filter (offer_expired (clock w)) (offers w)) Hok w) as [w1 E1].
  unfold bind at 1. rewrite E1. unfold bind at 1 2.
  destruct (for_each_delete_matches_total
              (filter match_declined (matches w1)) Hok w1) as [w2 E2].
  rewrite E2. unfold bind at 1 2.
  destruct (for_each_delete_matches_total
              (filter (match_stale (clock w)) (matches w2)) Hok w2) as [w3 E3].
  rewrite E3. unfold bind at 1.
  apply for_each_delete_matches_total, Hok.
Qed.

End Cleanup.

(** ** What the cleanup pass deletes *)

Lemma In_OfferDeleted o offers ms :
  In (OfferDeleted o) (map OfferDeleted offers ++ map MatchDeleted ms)
  <-> In o offers.
Proof.
  rewrite in_app_iff, !in_map_iff. split.
  - intros [(x & E & Hx) | (x & E & _)]; [congruence | discriminate].
  - intros H. left. exists o. auto.
Qed.

Lemma In_MatchDeleted m offers ms :
  In (MatchDeleted m) (map OfferDeleted offers ++ map MatchDeleted ms)
  <-> In m ms.
Proof.
  rewrite in_app_iff, !in_map_iff. split.
  - intros [(x & E & _) | (x & E & Hx)]; [discriminate | congruence].
  - intros H. right. exists m. auto.
Qed.

Lemma offer_expired_iff now x :
  offer_expired now x = true
  <-> confirmed x = false /\ created_ts x + 48 * one_hour < now.
Proof.
  unfold offer_expired. rewrite andb_true_iff, negb_true_iff, Z.ltb_lt.
  reflexivity.
Qed.

Lemma match_stale_iff now x :
  match_stale now x = true
  <-> new_agrees x = None
      \/ (old_agrees x = None /\ match_created_ts x + 7 * one_day < now).
Proof.
  unfold match_stale. rewrite orb_true_iff, andb_true_iff, Z.ltb_lt.
  unfold is_None.
  destruct (new_agrees x) as [[] |], (old_agrees x) as [[] |];
    intuition (discriminate || auto).
Qed.

Section CleanupClaims.

Variable env : Collaborators.

(** C6: a run of [clean] deletes an offer of the registry exactly when
    the offer is unconfirmed and its creation time plus 48 hours lies
    strictly before the time of the run.  An unconfirmed offer that is one
    second short of 48 hours old stays, one that is a second older goes,
    and a confirmed offer stays whatever its age. *)
Theorem clean_deletes_expired_offers self w w' o
    (Hrun : clean env self w = (Returned tt, w'))
    (Hin : In o (offers w)) :
  (In (OfferDeleted o) (events_since w w')
   <-> confirmed o = false /\ created_ts o + 48 * one_hour < clock w)
  /\ (~ In o (offers w')
      <-> confirmed o = false /\ created_ts o + 48 * one_hour < clock w)
  /\ (forall now x,
        confirmed x = false ->
        created_ts x = now - (48 * one_hour - one_second) ->
        offer_expired now x = false)
  /\ (forall now x,
        confirmed x = false ->
        created_ts x = now - (48 * one_hour + one_second) ->
        offer_expired now x = true)
  /\ (forall now x, confirmed x = true -> offer_expired now x = false).
Proof.
  apply clean_Returned in Hrun.
  assert (Htrace := f_equal trace Hrun). assert (Hoffers := f_equal offers Hrun).
  simpl in Htrace, Hoffers. clear Hrun.
  apply events_since_app in Htrace.
  split; [| split; [| split; [| split]]].
  - rewrite Htrace, <- !map_app, In_OfferDeleted, filter_In.
    rewrite offer_expired_iff. tauto.
  - rewrite Hoffers, filter_In, negb_true_iff, <- offer_expired_iff.
    destruct (offer_expired (clock w) o); split; intros H.
    + reflexivity.
    + intros [_ E]. discriminate.
    + exfalso. apply H. split; [assumption | reflexivity].
    + discriminate.
  - intros now x Hc Ht. unfold offer_expired. rewrite Hc, Ht. simpl.
    apply Z.ltb_ge. unfold timedelta, one_hour, one_second. lia.
  - intros now x Hc Ht. unfold offer_expired. rewrite Hc, Ht. simpl.
    apply Z.ltb_lt. unfold timedelta, one_hour, one_second. lia.
  - intros now x Hc. unfold offer_expired. rewrite Hc. reflexivity.
Qed.

(** C2: a run of [clean] treats a match as stale exactly when its new
    side is undecided, or its old side is undecided and the creation time
    plus seven days lies strictly before the time of the run; a stale
    match is deleted, and a match that is neither declined nor agreed for
    four weeks is deleted only when it is stale.  With the old side
    undecided and the new side agreed, a match of 6 days 23 hours is not
    stale and one of 7 days 1 hour is. *)
Theorem clean_deletes_stale_matches self w w' m
    (Hrun : clean env self w = (Returned tt, w'))
    (Hin : In m (matches w)) :
  (match_stale (clock w) m = true
   <-> new_agrees m = None
       \/ (old_agrees m = None
           /\ match_created_ts m + 7 * one_day < clock w))
  /\ (match_stale (clock w) m = true ->
      In (MatchDeleted m) (events_since w w') /\ ~ In m (matches w'))
  /\ (match_declined m = false ->
      match_agreed_expired (clock w) m = false ->
      (In (MatchDeleted m) (events_since w w')
       <-> match_stale (clock w) m = true)
      /\ (~ In m (matches w') <-> match_stale (clock w) m = true))
  /\ (forall now x,
        old_agrees x = None -> new_agrees x = Some true ->
        match_created_ts x = now - (6 * one_day + 23 * one_hour) ->
        match_stale now x = false)
  /\ (forall now x,
        old_agrees x = None -> new_agrees x = Some true ->
        match_created_ts x = now - (7 * one_day + one_hour) ->
        match_stale now x = true).
Proof.
  apply clean_Returned in Hrun.
  assert (Htrace := f_equal trace Hrun).
  assert (Hmatches := f_equal matches Hrun).
  simpl in Htrace, Hmatches. clear Hrun.
  apply events_since_app in Htrace.
  rewrite <- !map_app in Htrace.
  assert (Hdeleted :
    In (MatchDeleted m) (events_since w w')
    <-> match_declined m = true
        \/ (match_declined m = false /\ match_stale (clock w) m = true)
        \/ match_agreed_expired (clock w) m = true
           /\ match_stale (clock w) m = false /\ match_declined m = false).
  { rewrite Htrace, In_MatchDeleted, !in_app_iff.
    unfold matches_stale_swept, matches_declined_swept.
    rewrite !filter_In, !negb_true_iff. tauto. }
  assert (Hkept :
    In m (matches w')
    <-> match_declined m = false /\ match_stale (clock w) m = false
        /\ match_agreed_expired (clock w) m = false).
  { rewrite Hmatches.
    unfold matches_outdated_swept, matches_stale_swept, matches_declined_swept.
    rewrite !filter_In, !negb_true_iff. tauto. }
  split; [apply match_stale_iff |].
  split; [| split; [| split]].
  - intros Hs. split.
    + apply Hdeleted. destruct (match_declined m); auto.
    + rewrite Hkept. intros (_ & E & _). congruence.
  - intros Hd Ha. split.
    + rewrite Hdeleted. split.
      * intros [E | [[_ E] | [E _]]]; congruence.
      * auto.
    + rewrite Hkept. split.
      * intros H. destruct (match_stale (clock w) m); tauto.
      * intros E (_ & E' & _). congruence.
  - intros now x Ho Hn Ht. unfold match_stale. rewrite Ho, Hn, Ht. simpl.
    apply Z.ltb_ge. unfold timedelta, one_day, one_hour, one_second. lia.
  - intros now x Ho Hn Ht. unfold match_stale. rewrite Ho, Hn, Ht. simpl.
    apply Z.ltb_lt. unfold timedelta, one_day, one_hour, one_second. lia.
Qed.

End CleanupClaims.

(** ** Sending mail *)

Section Mailing.

Variable env : Collaborators.

Lemma currency_convert_Returned amount from to w c w' :
  currency_convert env amount from to w = (Returned c, w') ->
  convert env amount from to = Some c /\ w' = w.
Proof.
  unfold currency_convert.
  destruct (convert env amount from to); intros H; inversion H; auto.
Qed.

Lemma currency_convert_Raised amount from to w e w' :
  currency_convert env amount from to w = (Raised e, w') ->
  convert env amount from to = None /\ e = RateUnavailable /\ w' = w.
Proof.
  unfold currency_convert.
  destruct (convert env amount from to); intros H; inversion H; auto.
Qed.

Lemma send_mail_about_match_Returned my_offer their_offer match_secret w w' :
  _send_mail_about_match env my_offer their_offer match_secret w
  = (Returned tt, w') ->
  exists c,
    convert env (amount their_offer) (currency_iso (country env their_offer))
            (currency_iso (country env my_offer)) = Some c
    /\ w' = record_event
              (MailSent (suggested_mail env my_offer their_offer match_secret c))
              (record_log (LogSendingMatchMail (email my_offer)) w).
Proof.
  unfold _send_mail_about_match, mail_send, log. intros H.
  apply bind_Returned in H. destruct H as (c & w1 & Hc & H).
  apply currency_convert_Returned in Hc. destruct Hc as [Hc ->].
  apply bind_Returned in H. destruct H as ([] & w2 & Hl & H).
  inversion Hl; subst w2; clear Hl.
  apply perform_Returned in H. destruct H as [_ ->].
  exists c. auto.
Qed.

Lemma send_mail_about_deal_Returned old new w w' :
  _send_mail_about_deal env old new w = (Returned tt, w') ->
  exists c1 c2,
    convert env (amount old) (currency_iso (country env old))
            (currency_iso (country env new)) = Some c1
    /\ convert env (amount new) (currency_iso (country env new))
               (currency_iso (country env old)) = Some c2
    /\ accepts env (trace w) (MailSent (deal_mail env old new c1 c2)) = true
    /\ w' = record_event (MailSent (deal_mail env old new c1 c2))
              (record_log (LogSendingDealMail (email old) (email new)) w).
Proof.
  unfold _send_mail_about_deal, mail_send, log. intros H.
  apply bind_Returned in H. destruct H as (c1 & w1 & Hc1 & H).
  apply currency_convert_Returned in Hc1. destruct Hc1 as [Hc1 ->].
  apply bind_Returned in H. destruct H as (c2 & w1 & Hc2 & H).
  apply currency_convert_Returned in Hc2. destruct Hc2 as [Hc2 ->].
  apply bind_Returned in H. destruct H as ([] & w2 & Hl & H).
  inversion Hl; subst w2; clear Hl.
  apply perform_Returned in H. destruct H as [Hok ->].
  exists c1, c2. auto.
Qed.

(** When [_send_mail_about_deal] raises, no mail has gone out, and the
    exception is a missing rate or a refusal of the mail server. *)
Lemma send_mail_about_deal_Raised old new w e w' :
  _send_mail_about_deal env old new w = (Raised e, w') ->
  trace w' = trace w /\ offers w' = offers w /\ matches w' = matches w
  /\ (e = RateUnavailable \/ exists msg, e = Refused (MailSent msg)).
Proof.
  unfold _send_mail_about_deal, mail_send, log. intros H.
  apply bind_Raised in H. destruct H as [H | (c1 & w1 & Hc1 & H)].
  { apply currency_convert_Raised in H. destruct H as (_ & -> & ->). auto. }
  apply currency_convert_Returned in Hc1. destruct Hc1 as [Hc1 ->].
  apply bind_Raised in H. destruct H as [H | (c2 & w1 & Hc2 & H)].
  { apply currency_convert_Raised in H. destruct H as (_ & -> & ->). auto. }
  apply currency_convert_Returned in Hc2. destruct Hc2 as [Hc2 ->].
  apply bind_Raised in H. destruct H as [H | ([] & w2 & Hl & H)].
  { discriminate. }
  inversion Hl; subst w2; clear Hl.
  apply perform_Raised in H. destruct H as (_ & -> & ->). simpl.
  repeat split; eauto.
Qed.

(** The send goes through whenever both rates exist and the mail server
    takes the message, whatever the instruction lookups return. *)
Lemma send_mail_about_deal_proceeds old new w c1 c2 :
  convert env (amount old) (currency_iso (country env old))
          (currency_iso (country env new)) = Some c1 ->
  convert env (amount new) (currency_iso (country env new))
          (currency_iso (country env old)) = Some c2 ->
  accepts env (trace w) (MailSent (deal_mail env old new c1 c2)) = true ->
  _send_mail_about_deal env old new w
  = (Returned tt,
     record_event (MailSent (deal_mail env old new c1 c2))
       (record_log (LogSendingDealMail (email old) (email new)) w)).
Proof.
  intros H1 H2 Hok.
  unfold _send_mail_about_deal, currency_convert, bind.
  rewrite H1, H2. unfold ret, log, mail_send, perform. simpl.
  unfold deal_mail in Hok. rewrite Hok. reflexivity.
Qed.

End Mailing.

(** ** The deal notification *)

Section DealMail.

Variable env : Collaborators.

(** C9: when [by_charity_and_country_id] has no record for a charity and
    country, the instructions entry of the deal mail is the placeholder
    text and the mail is sent all the same: the send goes through whenever
    both rates exist and the mail server takes the message, and the only
    exceptions it can raise are a missing rate and a refusal of the mail
    server. *)
Theorem deal_mail_placeholder_instructions old new w :
  (forall w',
     _send_mail_about_deal env old new w = (Returned tt, w') ->
     exists msg,
       events_since w w' = [MailSent msg]
       /\ substitutions (html msg) = substitutions (text msg)
       /\ (by_charity_and_country_id env (charity_ident (charity env new))
             (country_ident (country env new)) = None ->
           lookup "{%OLD_INSTRUCTIONS%}" (substitutions (text msg))
           = Some (VStr "Sorry, there are no instructions available (yet)."))
       /\ (by_charity_and_country_id env (charity_ident (charity env old))
             (country_ident (country env new)) = None ->
           lookup "{%NEW_INSTRUCTIONS%}" (substitutions (text msg))
           = Some (VStr "Sorry, there are no instructions available (yet).")))
  /\ (forall c1 c2,
        convert env (amount old) (currency_iso (country env old))
                (currency_iso (country env new)) = Some c1 ->
        convert env (amount new) (currency_iso (country env new))
                (currency_iso (country env old)) = Some c2 ->
        accepts env (trace w) (MailSent (deal_mail env old new c1 c2)) = true ->
        exists w',
          _send_mail_about_deal env old new w = (Returned tt, w')
          /\ events_since w w' = [MailSent (deal_mail env old new c1 c2)])
  /\ (forall e w',
        _send_mail_about_deal env old new w = (Raised e, w') ->
        e = RateUnavailable \/ exists msg, e = Refused (MailSent msg)).
Proof.
  split; [| split].
  - intros w' H. apply send_mail_about_deal_Returned in H.
    destruct H as (c1 & c2 & _ & _ & _ & ->).
    exists (deal_mail env old new c1 c2).
    split; [apply events_since_app; reflexivity |].
    split; [reflexivity |].
    split; intros Hnone; simpl; unfold instructions_for; rewrite Hnone;
      reflexivity.
  - intros c1 c2 H1 H2 Hok. eexists. split.
    + apply send_mail_about_deal_proceeds; eassumption.
    + apply events_since_app. reflexivity.
  - intros e w' H. apply send_mail_about_deal_Raised in H. tauto.
Qed.

(** C10: the deal mail takes the instructions for the old party from the
    record of (new offer's charity, new offer's country) and those for the
    new party from the record of (old offer's charity, new offer's
    country).  No other entry of the table is consulted: tables that agree
    on these two keys give the same run, so the entries of the old offer's
    country play no role. *)
Theorem deal_instructions_use_new_country old new w :
  (forall w',
     _send_mail_about_deal env old new w = (Returned tt, w') ->
     exists msg,
       events_since w w' = [MailSent msg]
       /\ lookup "{%OLD_INSTRUCTIONS%}" (substitutions (text msg))
          = Some (VStr (instructions_for env
                          (charity_ident (charity env new))
                          (country_ident (country env new))))
       /\ lookup "{%NEW_INSTRUCTIONS%}" (substitutions (text msg))
          = Some (VStr (instructions_for env
                          (charity_ident (charity env old))
                          (country_ident (country env new)))))
  /\ (forall table,
        table (charity_ident (charity env new)) (country_ident (country env new))
        = by_charity_and_country_id env (charity_ident (charity env new))
                                    (country_ident (country env new)) ->
        table (charity_ident (charity env old)) (country_ident (country env new))
        = by_charity_and_country_id env (charity_ident (charity env old))
                                    (country_ident (country env new)) ->
        _send_mail_about_deal (with_instructions table env) old new w
        = _send_mail_about_deal env old new w)
  /\ (forall table,
        country_ident (country env old) <> country_ident (country env new) ->
        (forall c k, k <> country_ident (country env old) ->
                     table c k = by_charity_and_country_id env c k) ->
        _send_mail_about_deal (with_instructions table env) old new w
        = _send_mail_about_deal env old new w).
Proof.
  assert (Hagree : forall table,
    table (charity_ident (charity env new)) (country_ident (country env new))
    = by_charity_and_country_id env (charity_ident (charity env new))
                                (country_ident (country env new)) ->
    table (charity_ident (charity env old)) (country_ident (country env new))
    = by_charity_and_country_id env (charity_ident (charity env old))
                                (country_ident (country env new)) ->
    _send_mail_about_deal (with_instructions table env) old new w
    = _send_mail_about_deal env old new w).
  { intros table H1 H2.
    unfold _send_mail_about_deal, instructions_for, currency_convert,
      mail_send, perform, charity, country in *. simpl in *.
    rewrite H1, H2. reflexivity. }
  split; [| split].
  - intros w' H. apply send_mail_about_deal_Returned in H.
    destruct H as (c1 & c2 & _ & _ & _ & ->).
    exists (deal_mail env old new c1 c2).
    split; [apply events_since_app; reflexivity |].
    split; reflexivity.
  - exact Hagree.
  - intros table Hne Hsame. apply Hagree; apply Hsame; congruence.
Qed.

End DealMail.

(** ** Proposing matches *)

Section Propose.

Variable env : Collaborators.

Lemma Match_create_Returned sec nid oid w m w' :
  Match_create env sec nid oid w = (Returned m, w') ->
  m = mkMatch (next_match_id w) sec nid oid None None (clock w)
  /\ w' = mkWorld (offers w) (matches w ++ [m]) (clock w) (next_match_id w + 1)
                  (secrets_drawn w) (trace w ++ [MatchCreated m]) (logs w).
Proof.
  unfold Match_create, perform.
  destruct (accepts env (trace w) _); intros H; inversion H; subst.
  split; reflexivity.
Qed.

Lemma match_replacements_without_their_email my their address sec c :
  match_replacements env my (with_email address their) sec c
  = match_replacements env my their sec c.
Proof. reflexivity. Qed.

(** C5: outside a dry run, the first pair of the list, when its two
    offers differ in creation time, gives rise to exactly one new match
    whose old offer is the earlier and whose new offer is the later of the
    two, both sides undecided, followed by exactly two "suggested" mails,
    one to either owner; the dictionary of either mail is the same
    whatever the address of the other owner is.  The rest of the list is
    processed from there. *)
Theorem process_found_matches_proposes self offer1 offer2 rest w w'
    (Hdoit : _dry_run self = false)
    (Hts : created_ts offer1 <> created_ts offer2)
    (Hrun : process_found_matches env self ((offer1, offer2) :: rest) w
            = (Returned tt, w')) :
  exists old new m msg_old msg_new w1,
    ((old, new) = (offer1, offer2) \/ (old, new) = (offer2, offer1))
    /\ created_ts old < created_ts new
    /\ old_offer_id m = offer_id old /\ new_offer_id m = offer_id new
    /\ old_agrees m = None /\ new_agrees m = None
    /\ matches w1 = matches w ++ [m]
    /\ events_since w w1 = [MatchCreated m; MailSent msg_old; MailSent msg_new]
    /\ subject msg_old = "We may have found a matching donation for you"%string
    /\ subject msg_new = "We may have found a matching donation for you"%string
    /\ to msg_old = ToOne (email old)
    /\ to msg_new = ToOne (email new)
    /\ (exists c, forall address,
          substitutions (text msg_old)
          = match_replacements env old (with_email address new) (match_secret m) c
          /\ substitutions (html msg_old) = substitutions (text msg_old))
    /\ (exists c, forall address,
          substitutions (text msg_new)
          = match_replacements env new (with_email address old) (match_secret m) c
          /\ substitutions (html msg_new) = substitutions (text msg_new))
    /\ process_found_matches env self rest w1 = (Returned tt, w').
Proof.
  unfold process_found_matches in Hrun. simpl in Hrun. rewrite Hdoit in Hrun.
  apply bind_Returned in Hrun. destruct Hrun as ([] & w1 & Hbody & Hrest).
  apply bind_Returned in Hbody. destruct Hbody as (sec & w2 & Hsec & Hbody).
  inversion Hsec; subst sec w2; clear Hsec.
  apply bind_Returned in Hbody. destruct Hbody as ([] & w3 & Hlog & Hbody).
  inversion Hlog; subst w3; clear Hlog.
  apply bind_Returned in Hbody. destruct Hbody as (m & w4 & Hcreate & Hbody).
  apply Match_create_Returned in Hcreate. destruct Hcreate as [Hm ->].
  apply bind_Returned in Hbody. destruct Hbody as ([] & w5 & Hmail1 & Hmail2).
  apply send_mail_about_match_Returned in Hmail1.
  destruct Hmail1 as (c1 & _ & ->).
  apply send_mail_about_match_Returned in Hmail2.
  destruct Hmail2 as (c2 & _ & ->).
  set (old := if created_ts offer1 <? created_ts offer2 then offer1 else offer2)
    in *.
  set (new := if created_ts offer1 <? created_ts offer2 then offer2 else offer1)
    in *.
  exists old, new, m.
  exists (suggested_mail env old new (create_secret env (secrets_drawn w)) c1).
  exists (suggested_mail env new old (create_secret env (secrets_drawn w)) c2).
  match type of Hrest with for_each _ _ ?w1 = _ => exists w1 end.
  split; [| split].
  { subst old new. destruct (created_ts offer1 <? created_ts offer2); auto. }
  { subst old new. destruct (Z.ltb_spec (created_ts offer1) (created_ts offer2));
      lia. }
  subst m. simpl.
  repeat (split; [reflexivity |]).
  split.
  { apply events_since_app. simpl. rewrite <- !app_assoc. reflexivity. }
  repeat (split; [reflexivity |]).
  split; [exists c1; intros address; split; reflexivity |].
  split; [exists c2; intros address; split; reflexivity |].
  unfold process_found_matches. rewrite Hdoit. exact Hrest.
Qed.

(** With a database and a mail server that carry out every request and a
    rate for every conversion, [process_found_matches] returns. *)
Lemma send_mail_about_match_total my their sec w :
  (forall h e, accepts env h e = true) ->
  (forall a f t, exists c, convert env a f t = Some c) ->
  exists w', _send_mail_about_match env my their sec w = (Returned tt, w').
Proof.
  intros Hok Hrate.
  unfold _send_mail_about_match, currency_convert, mail_send, perform, log, bind.
  destruct (Hrate (amount their) (currency_iso (country env their))
                  (currency_iso (country env my))) as [c ->].
  simpl. rewrite Hok. eauto.
Qed.

Lemma process_found_matches_total self pairs :
  (forall h e, accepts env h e = true) ->
  (forall a f t, exists c, convert env a f t = Some c) ->
  forall w, exists w',
    process_found_matches env self pairs w = (Returned tt, w').
Proof.
  intros Hok Hrate. unfold process_found_matches.
  induction pairs as [| [offer1 offer2] pairs IH]; simpl; intros w.
  - exists w. reflexivity.
  - unfold bind at 1. destruct (_dry_run self) eqn:Hdry.
    + unfold log at 1. apply IH.
    + unfold bind at 1, donationswap_create_secret at 1.
      unfold bind at 1, log at 1.
      unfold bind at 1, Match_create, perform. rewrite Hok.
      unfold bind at 1.
      match goal with
      | |- context [_send_mail_about_match env ?a ?b ?s ?v] =>
          destruct (send_mail_about_match_total a b s v Hok Hrate) as [w1 ->]
      end.
      match goal with
      | |- context [_send_mail_about_match env ?a ?b ?s ?v] =>
          destruct (send_mail_about_match_total a b s v Hok Hrate) as [w2 ->]
      end.
      apply IH.
Qed.

End Propose.

(** ** The dry run *)

Section DryRun.

Variable env : Collaborators.

Lemma for_each_log {A} (f : A -> LogMsg) (l : list A) : forall w,
  for_each l (fun x => log (f x)) w
  = (Returned tt,
     mkWorld (offers w) (matches w) (clock w) (next_match_id w)
             (secrets_drawn w) (trace w) (logs w ++ map f l)).
Proof.
  induction l as [| x l IH]; simpl; intros w.
  - rewrite app_nil_r, <- world_eta. reflexivity.
  - unfold bind, log at 1. rewrite IH. simpl.
    rewrite <- app_assoc. reflexivity.
Qed.

(** In a dry run [process_found_matches] only writes log lines. *)
Lemma process_found_matches_dry_run self pairs w :
  _dry_run self = true ->
  process_found_matches env self pairs w
  = (Returned tt,
     mkWorld (offers w) (matches w) (clock w) (next_match_id w)
             (secrets_drawn w) (trace w)
             (logs w ++ map (fun p => LogDryRunPair (fst p) (snd p)) pairs)).
Proof.
  intros Hdry. unfold process_found_matches. rewrite Hdry.
  apply (for_each_log (fun p => LogDryRunPair (fst p) (snd p))).
Qed.

(** In a dry run [process_approved_matches] only writes log lines. *)
Lemma process_approved_matches_dry_run self w :
  _dry_run self = true ->
  process_approved_matches env self w
  = (Returned tt,
     mkWorld (offers w) (matches w) (clock w) (next_match_id w)
             (secrets_drawn w) (trace w)
             (logs w ++ map LogDryRunMatch (filter match_approved (matches w)))).
Proof.
  intros Hdry. unfold process_approved_matches, Match_get_all, bind.
  rewrite Hdry. apply (for_each_log LogDryRunMatch).
Qed.

(** Without [--doit] the run is the cleanup pass followed by log lines:
    the pairing is computed and logged, and what [clean] deletes is
    deleted. *)
Lemma main_dry_run w :
  main env false w
  = match clean env (mkMatchmaker true) w with
    | (Returned _, w1) =>
        let pairs :=
          pair_up (get_match_candidates env (offers w1) (matches w1) (clock w1)) in
        (Returned tt,
         mkWorld (offers w1) (matches w1) (clock w1) (next_match_id w1)
                 (secrets_drawn w1) (trace w1)
                 (logs w1
                  ++ [LogEligible
                        (length (get_match_candidates env (offers w1)
                                   (matches w1) (clock w1)));
                      LogFound (length pairs)]
                  ++ map (fun p => LogDryRunPair (fst p) (snd p)) pairs
                  ++ map LogDryRunMatch (filter match_approved (matches w1))))
    | (Raised e, w1) => (Raised e, w1)
    end.
Proof.
  unfold main. simpl. unfold bind at 1.
  destruct (clean env (mkMatchmaker true) w) as [[[] | e] w1]; [| reflexivity].
  unfold find_matches, bind, log, ret. simpl.
  rewrite process_found_matches_dry_run by reflexivity.
  rewrite process_approved_matches_dry_run by reflexivity. simpl.
  rewrite <- !app_assoc. reflexivity.
Qed.

End DryRun.

(** ** Finalizing agreed matches *)

Section Finalize.

Variable env : Collaborators.

Lemma Offer_by_id_Returned id w o w' :
  Offer_by_id id w = (Returned o, w') ->
  find (fun x => offer_id x =? id) (offers w) = Some o /\ w' = w.
Proof.
  unfold Offer_by_id.
  destruct (find _ (offers w)); intros H; inversion H; auto.
Qed.

Lemma Offer_by_id_Raised id w e w' :
  Offer_by_id id w = (Raised e, w') -> e = KeyError id /\ w' = w.
Proof.
  unfold Offer_by_id.
  destruct (find _ (offers w)); intros H; inversion H; auto.
Qed.

Lemma process_approved_matches_unfold self w :
  _dry_run self = false ->
  process_approved_matches env self w
  = for_each (filter match_approved (matches w)) (finalize_one env) w.
Proof.
  intros Hdoit. unfold process_approved_matches. rewrite Hdoit. reflexivity.
Qed.

Lemma finalize_one_Returned m w w' :
  finalize_one env m w = (Returned tt, w') ->
  exists old new msg,
    parties (offers w) m = Some (old, new)
    /\ deal_mail_of env (offers w) m = Some msg
    /\ subject msg = "Here is your match!"%string
    /\ to msg = ToList [email old; email new]
    /\ w' = mkWorld (offers w) (remove Match_eq_dec m (matches w)) (clock w)
                    (next_match_id w) (secrets_drawn w)
                    (trace w ++ [MailSent msg; MatchDeleted m])
                    (logs w ++ [LogSendingDealMail (email old) (email new)]).
Proof.
  unfold finalize_one, old_offer, new_offer. intros H.
  apply bind_Returned in H. destruct H as (old & w1 & Hold & H).
  apply Offer_by_id_Returned in Hold. destruct Hold as [Hold ->].
  apply bind_Returned in H. destruct H as (new & w1 & Hnew & H).
  apply Offer_by_id_Returned in Hnew. destruct Hnew as [Hnew ->].
  apply bind_Returned in H. destruct H as ([] & w1 & Hmail & H).
  apply send_mail_about_deal_Returned in Hmail.
  destruct Hmail as (c1 & c2 & Hc1 & Hc2 & _ & ->).
  apply perform_Returned in H. destruct H as [_ ->].
  exists old, new, (deal_mail env old new c1 c2).
  unfold deal_mail_of, parties. rewrite Hold, Hnew, Hc1, Hc2.
  unfold record_event, record_log. simpl.
  rewrite <- app_assoc. repeat split; reflexivity.
Qed.

(** A refused deletion is the only way for the body to raise
    [Refused (MatchDeleted _)], and the deal mail has gone out by then. *)
Lemma finalize_one_delete_refused m x w w' :
  finalize_one env m w = (Raised (Refused (MatchDeleted x)), w') ->
  exists old new msg,
    x = m
    /\ parties (offers w) m = Some (old, new)
    /\ deal_mail_of env (offers w) m = Some msg
    /\ subject msg = "Here is your match!"%string
    /\ to msg = ToList [email old; email new]
    /\ matches w' = matches w
    /\ trace w' = trace w ++ [MailSent msg].
Proof.
  unfold finalize_one, old_offer, new_offer. intros H.
  apply bind_Raised in H. destruct H as [H | (old & w1 & Hold & H)].
  { apply Offer_by_id_Raised in H. destruct H as [H _]. discriminate. }
  apply Offer_by_id_Returned in Hold. destruct Hold as [Hold ->].
  apply bind_Raised in H. destruct H as [H | (new & w1 & Hnew & H)].
  { apply Offer_by_id_Raised in H. destruct H as [H _]. discriminate. }
  apply Offer_by_id_Returned in Hnew. destruct Hnew as [Hnew ->].
  apply bind_Raised in H. destruct H as [H | ([] & w1 & Hmail & H)].
  { apply send_mail_about_deal_Raised in H.
    destruct H as (_ & _ & _ & [H | [msg H]]); discriminate. }
  apply send_mail_about_deal_Returned in Hmail.
  destruct Hmail as (c1 & c2 & Hc1 & Hc2 & _ & ->).
  apply perform_Raised in H. destruct H as (_ & Hx & ->).
  inversion Hx; subst x.
  exists old, new, (deal_mail env old new c1 c2).
  unfold deal_mail_of, parties. rewrite Hold, Hnew, Hc1, Hc2. simpl.
  repeat split; reflexivity.
Qed.

Lemma finalize_loop_Returned ms : forall w w',
  for_each ms (finalize_one env) w = (Returned tt, w') ->
  offers w' = offers w
  /\ matches w' = remove_all Match_eq_dec ms (matches w)
  /\ trace w' = trace w ++ finalize_events env (offers w) ms
  /\ Forall (fun m => exists old new msg,
               parties (offers w) m = Some (old, new)
               /\ deal_mail_of env (offers w) m = Some msg
               /\ subject msg = "Here is your match!"%string
               /\ to msg = ToList [email old; email new]) ms.
Proof.
  induction ms as [| m ms IH]; simpl; intros w w' H.
  - inversion H. rewrite app_nil_r. auto.
  - apply bind_Returned in H. destruct H as ([] & w1 & Hone & Hrest).
    apply finalize_one_Returned in Hone.
    destruct Hone as (old & new & msg & Hp & Hmsg & Hsub & Hto & ->).
    apply IH in Hrest. simpl in Hrest.
    destruct Hrest as (Ho & Hm & Ht & Hall).
    rewrite Hmsg. simpl. rewrite <- app_assoc in Ht.
    repeat split; try assumption.
    constructor; [| assumption].
    exists old, new, msg. auto.
Qed.

Lemma finalize_loop_delete_refused ms : forall x w w',
  for_each ms (finalize_one env) w = (Raised (Refused (MatchDeleted x)), w') ->
  exists done old new msg,
    In x ms
    /\ parties (offers w) x = Some (old, new)
    /\ deal_mail_of env (offers w) x = Some msg
    /\ subject msg = "Here is your match!"%string
    /\ to msg = ToList [email old; email new]
    /\ trace w' = trace w ++ finalize_events env (offers w) done ++ [MailSent msg].
Proof.
  induction ms as [| m ms IH]; simpl; intros x w w' H.
  - discriminate.
  - apply bind_Raised in H. destruct H as [H | ([] & w1 & Hone & Hrest)].
    + apply finalize_one_delete_refused in H.
      destruct H as (old & new & msg & -> & Hp & Hmsg & Hsub & Hto & _ & Ht).
      exists [], old, new, msg. simpl. auto 10.
    + apply finalize_one_Returned in Hone.
      destruct Hone as (old1 & new1 & msg1 & _ & Hmsg1 & _ & _ & ->).
      apply IH in Hrest. simpl in Hrest.
      destruct Hrest as (done & old & new & msg & Hin & Hp & Hmsg & Hs & Hto & Ht).
      exists (m :: done), old, new, msg. simpl. rewrite Hmsg1. simpl.
      rewrite <- app_assoc in Ht. auto 10.
Qed.

(** With such collaborators, and when the offers of every agreed match
    are in the registry, [process_approved_matches] returns. *)
Lemma finalize_loop_total ms :
  (forall h e, accepts env h e = true) ->
  (forall a f t, exists c, convert env a f t = Some c) ->
  forall w,
    Forall (fun m => parties (offers w) m <> None) ms ->
    exists w', for_each ms (finalize_one env) w = (Returned tt, w').
Proof.
  intros Hok Hrate.
  induction ms as [| m ms IH]; simpl; intros w Hall.
  - exists w. reflexivity.
  - inversion Hall as [| ? ? Hm Hms]; subst.
    unfold parties in Hm.
    destruct (find (fun o => offer_id o =? old_offer_id m) (offers w))
      as [old |] eqn:Eold; [| congruence].
    destruct (find (fun o => offer_id o =? new_offer_id m) (offers w))
      as [new |] eqn:Enew; [| congruence].
    destruct (Hrate (amount old) (currency_iso (country env old))
                    (currency_iso (country env new))) as [c1 Hc1].
    destruct (Hrate (amount new) (currency_iso (country env new))
                    (currency_iso (country env old))) as [c2 Hc2].
    unfold bind at 1, finalize_one, old_offer, new_offer, Offer_by_id.
    unfold bind at 1. rewrite Eold.
    unfold bind at 1. rewrite Enew.
    unfold bind at 1.
    rewrite (send_mail_about_deal_proceeds env old new w c1 c2 Hc1 Hc2 (Hok _ _)).
    unfold Match_delete, perform. rewrite Hok.
    apply IH. exact Hms.
Qed.

Lemma process_approved_matches_total self w :
  (forall h e, accepts env h e = true) ->
  (forall a f t, exists c, convert env a f t = Some c) ->
  Forall (fun m => parties (offers w) m <> None)
         (filter match_approved (matches w)) ->
  exists w', process_approved_matches env self w = (Returned tt, w').
Proof.
  intros Hok Hrate Hall. destruct (_dry_run self) eqn:Hdry.
  - rewrite process_approved_matches_dry_run by assumption. eauto.
  - rewrite process_approved_matches_unfold by assumption.
    apply finalize_loop_total; assumption.
Qed.

Lemma In_finalize_events m msg registry ms :
  In m ms -> deal_mail_of env registry m = Some msg ->
  In (MailSent msg) (finalize_events env registry ms)
  /\ In (MatchDeleted m) (finalize_events env registry ms).
Proof.
  intros Hin Hmsg. unfold finalize_events.
  split; apply in_flat_map; exists m; rewrite Hmsg; simpl; auto.
Qed.

Lemma filter_approved_after_sweep (l : list Match) :
  filter match_approved (filter (fun m => negb (match_approved m)) l) = [].
Proof.
  rewrite filter_filter.
  induction l as [| m l IH]; simpl; [reflexivity |].
  destruct (match_approved m); simpl; assumption.
Qed.

(** C7: outside a dry run, a run of [process_approved_matches] that
    returns has sent the deal mail for, and then deleted, every match both
    sides agreed to; no such match is left, so running it again right away
    selects nothing, sends nothing and leaves the world as it is. *)
Theorem process_approved_matches_idempotent self w w1
    (Hdoit : _dry_run self = false)
    (Hrun : process_approved_matches env self w = (Returned tt, w1)) :
  (forall m, In m (matches w) -> match_approved m = true ->
             In (MatchDeleted m) (events_since w w1) /\ ~ In m (matches w1))
  /\ filter match_approved (matches w1) = []
  /\ process_approved_matches env self w1 = (Returned tt, w1)
  /\ (forall r w2, process_approved_matches env self w1 = (r, w2) ->
                   r = Returned tt /\ events_since w1 w2 = []
                   /\ matches w2 = matches w1).
Proof.
  rewrite process_approved_matches_unfold in Hrun by assumption.
  apply finalize_loop_Returned in Hrun.
  destruct Hrun as (Hoffers & Hmatches & Htrace & Hall).
  rewrite remove_all_filter in Hmatches.
  apply events_since_app in Htrace.
  assert (Hnone : filter match_approved (matches w1) = [])
    by (rewrite Hmatches; apply filter_approved_after_sweep).
  assert (Hagain : process_approved_matches env self w1 = (Returned tt, w1)).
  { rewrite process_approved_matches_unfold by assumption.
    rewrite Hnone. reflexivity. }
  split; [| split; [| split]].
  - intros m Hin Happ. split.
    + assert (Hsel : In m (filter match_approved (matches w)))
        by (apply filter_In; auto).
      rewrite Forall_forall in Hall.
      destruct (Hall m Hsel) as (old & new & msg & _ & Hmsg & _).
      rewrite Htrace. exact (proj2 (In_finalize_events _ _ _ _ Hsel Hmsg)).
    + rewrite Hmatches, filter_In, Happ. intros [_ E]. discriminate.
  - exact Hnone.
  - exact Hagain.
  - intros r w2 H. rewrite Hagain in H. inversion H; subst.
    repeat split. unfold events_since. apply skipn_all.
Qed.

(** C8: outside a dry run, a run of [process_approved_matches] that
    returns has produced, for every match both sides agreed to, exactly
    one deal mail addressed to the two owners together, directly followed
    by the deletion of that match, and nothing else.  When the run stops
    because the deletion of a match is refused, the last effect before
    that is the deal mail of this very match: the mail has gone out. *)
Theorem process_approved_matches_sends_then_deletes self w
    (Hdoit : _dry_run self = false) :
  (forall w',
     process_approved_matches env self w = (Returned tt, w') ->
     events_since w w'
     = finalize_events env (offers w) (filter match_approved (matches w))
     /\ Forall (fun m => exists old new msg,
                  parties (offers w) m = Some (old, new)
                  /\ deal_mail_of env (offers w) m = Some msg
                  /\ subject msg = "Here is your match!"%string
                  /\ to msg = ToList [email old; email new])
               (filter match_approved (matches w)))
  /\ (forall m w',
        process_approved_matches env self w
        = (Raised (Refused (MatchDeleted m)), w') ->
        exists done old new msg,
          In m (filter match_approved (matches w))
          /\ parties (offers w) m = Some (old, new)
          /\ deal_mail_of env (offers w) m = Some msg
          /\ subject msg = "Here is your match!"%string
          /\ to msg = ToList [email old; email new]
          /\ events_since w w'
             = finalize_events env (offers w) done ++ [MailSent msg]).
Proof.
  split.
  - intros w' Hrun.
    rewrite process_approved_matches_unfold in Hrun by assumption.
    apply finalize_loop_Returned in Hrun.
    destruct Hrun as (_ & _ & Htrace & Hall).
    split; [apply events_since_app; assumption | assumption].
  - intros m w' Hrun.
    rewrite process_approved_matches_unfold in Hrun by assumption.
    apply finalize_loop_delete_refused in Hrun.
    destruct Hrun as (done & old & new & msg & Hin & Hp & Hmsg & Hs & Hto & Ht).
    exists done, old, new, msg.
    repeat (split; [assumption |]).
    apply events_since_app. assumption.
Qed.

End Finalize.


(** C1: a run of [main] without [--doit] on the sample world returns, and
    it has created no match and sent no mail, the pairing has been
    computed and logged; but the cleanup pass has run unguarded: the
    expired offer and the overdue match are deleted, so the registry after
    the run differs from the registry before it. *)
Theorem dry_run_clean_still_deletes :
  main Sample.env false Sample.world = (Returned tt, Sample.world_dry_run)
  /\ events_since Sample.world Sample.world_dry_run
     = [OfferDeleted Sample.dave; MatchDeleted Sample.overdue]
  /\ offers Sample.world
     = [Sample.alice; Sample.bob; Sample.carol; Sample.dave; Sample.erin;
        Sample.frank]
  /\ offers Sample.world_dry_run
     = [Sample.alice; Sample.bob; Sample.carol; Sample.erin; Sample.frank]
  /\ matches Sample.world = [Sample.agreed; Sample.overdue; Sample.recent]
  /\ matches Sample.world_dry_run = [Sample.agreed; Sample.recent]
  /\ logs Sample.world_dry_run
     = [LogEligible 2; LogFound 1; LogDryRunPair Sample.frank Sample.erin;
        LogDryRunMatch Sample.agreed].
Proof. repeat split; vm_compute; reflexivity. Qed.

(** ** The statements at the sample data *)

Lemma clean_deletes_stale_matches_witness :
  clean Sample.env Sample.committing Sample.world
  = (Returned tt, Sample.world_cleaned)
  /\ In Sample.overdue (matches Sample.world)
  /\ In (MatchDeleted Sample.overdue)
        (events_since Sample.world Sample.world_cleaned)
  /\ ~ In Sample.overdue (matches Sample.world_cleaned).
Proof.
  assert (Hrun : clean Sample.env Sample.committing Sample.world
                 = (Returned tt, Sample.world_cleaned))
    by (vm_compute; reflexivity).
  assert (Hin : In Sample.overdue (matches Sample.world))
    by (simpl; auto).
  split; [exact Hrun | split; [exact Hin |]].
  apply (clean_deletes_stale_matches Sample.env Sample.committing Sample.world
           Sample.world_cleaned Sample.overdue Hrun Hin).
  vm_compute. reflexivity.
Defined.

Lemma find_matches_pairs_good_and_disjoint_witness :
  NoDup (map offer_id [Sample.alice; Sample.bob; Sample.carol])
  /\ Forall (fun p => _is_good_match (fst p) (snd p) = true)
            (pair_up [Sample.alice; Sample.bob; Sample.carol])
  /\ NoDup (map offer_id
              (members (pair_up [Sample.alice; Sample.bob; Sample.carol]))).
Proof.
  assert (Hdistinct : NoDup (map offer_id [Sample.alice; Sample.bob; Sample.carol])).
  { simpl. repeat constructor; simpl; intuition discriminate. }
  split; [exact Hdistinct |].
  split;
    apply (find_matches_pairs_good_and_disjoint
             [Sample.alice; Sample.bob; Sample.carol] Hdistinct).
Defined.

Lemma process_found_matches_proposes_witness :
  _dry_run Sample.committing = false
  /\ created_ts Sample.bob <> created_ts Sample.alice
  /\ process_found_matches Sample.env Sample.committing
       [(Sample.bob, Sample.alice)] Sample.unmatched
     = (Returned tt, Sample.unmatched_proposed)
  /\ exists old new m,
       created_ts old < created_ts new
       /\ old_offer_id m = offer_id old /\ new_offer_id m = offer_id new
       /\ old_agrees m = None /\ new_agrees m = None.
Proof.
  assert (Hdoit : _dry_run Sample.committing = false) by reflexivity.
  assert (Hts : created_ts Sample.bob <> created_ts Sample.alice)
    by (vm_compute; discriminate).
  assert (Hrun : process_found_matches Sample.env Sample.committing
                   [(Sample.bob, Sample.alice)] Sample.unmatched
                 = (Returned tt, Sample.unmatched_proposed))
    by (vm_compute; reflexivity).
  split; [exact Hdoit | split; [exact Hts | split; [exact Hrun |]]].
  destruct (process_found_matches_proposes Sample.env Sample.committing
              Sample.bob Sample.alice [] Sample.unmatched
              Sample.unmatched_proposed Hdoit Hts Hrun)
    as (old & new & m & _ & _ & _ & _ & Hlt & Ho & Hn & Hoa & Hna & _).
  exists old, new, m. auto.
Defined.

Lemma clean_deletes_expired_offers_witness :
  clean Sample.env Sample.committing Sample.world
  = (Returned tt, Sample.world_cleaned)
  /\ In Sample.dave (offers Sample.world)
  /\ In (OfferDeleted Sample.dave)
        (events_since Sample.world Sample.world_cleaned).
Proof.
  assert (Hrun : clean Sample.env Sample.committing Sample.world
                 = (Returned tt, Sample.world_cleaned))
    by (vm_compute; reflexivity).
  assert (Hin : In Sample.dave (offers Sample.world))
    by (simpl; auto).
  split; [exact Hrun | split; [exact Hin |]].
  apply (clean_deletes_expired_offers Sample.env Sample.committing Sample.world
           Sample.world_cleaned Sample.dave Hrun Hin).
  vm_compute. split; reflexivity.
Defined.

Lemma process_approved_matches_idempotent_witness :
  _dry_run Sample.committing = false
  /\ process_approved_matches Sample.env Sample.committing Sample.settled
     = (Returned tt, Sample.settled_finalized)
  /\ process_approved_matches Sample.env Sample.committing
       Sample.settled_finalized
     = (Returned tt, Sample.settled_finalized).
Proof.
  assert (Hdoit : _dry_run Sample.committing = false) by reflexivity.
  assert (Hrun : process_approved_matches Sample.env Sample.committing
                   Sample.settled
                 = (Returned tt, Sample.settled_finalized))
    by (vm_compute; reflexivity).
  split; [exact Hdoit | split; [exact Hrun |]].
  apply (process_approved_matches_idempotent Sample.env Sample.committing
           Sample.settled Sample.settled_finalized Hdoit Hrun).
Defined.

Lemma process_approved_matches_sends_then_deletes_witness :
  _dry_run Sample.committing = false
  /\ process_approved_matches Sample.env_no_delete Sample.committing
       Sample.settled
     = (Raised (Refused (MatchDeleted Sample.agreed)), Sample.settled_refused)
  /\ exists done old new msg,
       parties (offers Sample.settled) Sample.agreed = Some (old, new)
       /\ to msg = ToList [email old; email new]
       /\ events_since Sample.settled Sample.settled_refused
          = finalize_events Sample.env_no_delete (offers Sample.settled) done
            ++ [MailSent msg].
Proof.
  assert (Hdoit : _dry_run Sample.committing = false) by reflexivity.
  assert (Hrun : process_approved_matches Sample.env_no_delete
                   Sample.committing Sample.settled
                 = (Raised (Refused (MatchDeleted Sample.agreed)),
                    Sample.settled_refused))
    by (vm_compute; reflexivity).
  split; [exact Hdoit | split; [exact Hrun |]].
  destruct (proj2 (process_approved_matches_sends_then_deletes
                     Sample.env_no_delete Sample.committing Sample.settled
                     Hdoit)
                  Sample.agreed Sample.settled_refused Hrun)
    as (done & old & new & msg & _ & Hp & _ & _ & Hto & Hev).
  exists done, old, new, msg. auto.
Defined.

Lemma deal_mail_placeholder_instructions_witness :
  by_charity_and_country_id Sample.env
    (charity_ident (charity Sample.env Sample.bob))
    (country_ident (country Sample.env Sample.bob)) = None
  /\ exists w' msg,
       _send_mail_about_deal Sample.env Sample.alice Sample.bob Sample.settled
       = (Returned tt, w')
       /\ events_since Sample.settled w' = [MailSent msg]
       /\ lookup "{%OLD_INSTRUCTIONS%}" (substitutions (text msg))
          = Some (VStr "Sorry, there are no instructions available (yet).").
Proof.
  assert (Hnone : by_charity_and_country_id Sample.env
            (charity_ident (charity Sample.env Sample.bob))
            (country_ident (country Sample.env Sample.bob)) = None)
    by reflexivity.
  split; [exact Hnone |].
  destruct (deal_mail_placeholder_instructions Sample.env Sample.alice
              Sample.bob Sample.settled) as (Hfield & Hgoes & _).
  destruct (Hgoes 100 80 eq_refl eq_refl eq_refl) as (w' & Hrun & _).
  destruct (Hfield w' Hrun) as (msg & Hev & _ & Hold & _).
  exists w', msg. auto.
Defined.

Lemma deal_instructions_use_new_country_witness :
  country_ident (country Sample.env Sample.alice)
  <> country_ident (country Sample.env Sample.bob)
  /\ Sample.table_for_country_10 2 10 <> by_charity_and_country_id Sample.env 2 10
  /\ _send_mail_about_deal
       (with_instructions Sample.table_for_country_10 Sample.env)
       Sample.alice Sample.bob Sample.settled
     = _send_mail_about_deal Sample.env Sample.alice Sample.bob Sample.settled.
Proof.
  assert (Hne : country_ident (country Sample.env Sample.alice)
                <> country_ident (country Sample.env Sample.bob))
    by (vm_compute; discriminate).
  split; [exact Hne | split; [vm_compute; discriminate |]].
  apply (deal_instructions_use_new_country Sample.env Sample.alice Sample.bob
           Sample.settled).
  - exact Hne.
  - intros c k Hk. unfold Sample.table_for_country_10. simpl in Hk.
    destruct (Z.eqb_spec k 10); [contradiction | reflexivity].
Defined.

(** * Further properties of the matching engine *)

Lemma pop_snoc (l : list Offer) x : pop (l ++ [x]) = Some (x, l).
Proof.
  induction l as [| y t IH]; simpl; [reflexivity |].
  rewrite IH. reflexivity.
Qed.

Lemma list_remove_incl x (l : list Offer) : incl (list_remove x l) l.
Proof.
  induction l as [| y t IH]; simpl; [apply incl_refl |].
  destruct (Offer_eq_dec y x).
  - apply incl_tl, incl_refl.
  - intros z [Hz | Hz]; [left; assumption | right; apply IH; assumption].
Qed.

(** The accumulator only collects: the loop started with pairs already
    found returns them in front of what it finds itself. *)
Lemma find_matches_loop_acc fuel : forall offers acc,
  find_matches_loop fuel offers acc = acc ++ find_matches_loop fuel offers [].
Proof.
  induction fuel as [| fuel IH]; simpl; intros offers acc.
  - rewrite app_nil_r. reflexivity.
  - destruct (pop offers) as [[offer1 offers1] |]; [| rewrite app_nil_r; reflexivity].
    destruct (find (_is_good_match offer1) offers1) as [offer2 |].
    + rewrite IH, (IH _ ([] ++ [(offer1, offer2)])), <- app_assoc. reflexivity.
    + apply IH.
Qed.

Lemma find_matches_loop_leftover fuel : forall offers acc,
  (length offers <= fuel)%nat ->
  exists rest,
    Permutation (members (find_matches_loop fuel offers acc) ++ rest)
                (members acc ++ offers)
    /\ ForallOrdPairs incompatible rest
    /\ incl rest offers.
Proof.
  induction fuel as [| fuel IH]; simpl; intros offers acc Hlen.
  - destruct offers; [| simpl in Hlen; lia].
    exists []. split; [reflexivity | split; [constructor | apply incl_refl]].
  - destruct (pop offers) as [[offer1 offers1] |] eqn:Ep.
    + apply pop_Some in Ep. subst offers.
      rewrite length_app in Hlen. simpl in Hlen.
      destruct (find (_is_good_match offer1) offers1) as [offer2 |] eqn:Ef.
      * assert (Hin : In offer2 offers1) by apply (find_some _ _ Ef).
        destruct (IH (list_remove offer2 offers1) (acc ++ [(offer1, offer2)]))
          as (rest & Hperm & Hpair & Hincl).
        { apply list_remove_length in Hin. lia. }
        exists rest. split; [| split].
        -- rewrite Hperm, members_app. simpl.
           rewrite <- !app_assoc. apply Permutation_app_head. simpl.
           rewrite (list_remove_Permutation offer2 offers1 Hin) at 2.
           change (offer1 :: offer2 :: list_remove offer2 offers1)
             with ([offer1] ++ (offer2 :: list_remove offer2 offers1)).
           apply Permutation_app_comm.
        -- exact Hpair.
        -- intros z Hz. apply in_or_app. left.
           apply (list_remove_incl offer2 offers1), Hincl, Hz.
      * destruct (IH offers1 acc) as (rest & Hperm & Hpair & Hincl); [lia |].
        exists (offer1 :: rest). split; [| split].
        -- rewrite <- Permutation_middle, Hperm.
           rewrite app_assoc. apply Permutation_cons_append.
        -- constructor; [| exact Hpair].
           apply Forall_forall. intros z Hz.
           apply (find_none _ _ Ef), Hincl, Hz.
        -- intros z [<- | Hz]; apply in_or_app;
             [right; simpl; auto | left; apply Hincl, Hz].
    + apply pop_None in Ep. subst offers.
      exists []. split; [reflexivity | split; [constructor | apply incl_nil_l]].
Qed.

(** X1: the pairing is maximal.  The candidates split into the paired
    offers and a rest in which no two offers are compatible, so no further
    pair could be formed from the offers left over; the pairs use up two
    candidates each. *)
Theorem pair_up_maximal (offers : list Offer) :
  exists rest,
    Permutation (members (pair_up offers) ++ rest) offers
    /\ ForallOrdPairs incompatible rest
    /\ (2 * length (pair_up offers) + length rest = length offers)%nat
    /\ (forall a b,
          In a offers -> In b offers -> a <> b ->
          ~ In a (members (pair_up offers)) ->
          ~ In b (members (pair_up offers)) ->
          _is_good_match a b = false).
Proof.
  destruct (find_matches_loop_leftover (length offers) offers [] (le_n _))
    as (rest & Hperm & Hpair & _).
  simpl in Hperm. fold (pair_up offers) in Hperm.
  exists rest. split; [exact Hperm | split; [exact Hpair | split]].
  - apply Permutation_length in Hperm. rewrite length_app in Hperm.
    rewrite <- Hperm. unfold members. rewrite (flat_map_constant_length (c := 2%nat)).
    + lia.
    + intros p _. reflexivity.
  - intros a b Ha Hb Hab Hna Hnb.
    assert (Hra : In a rest).
    { apply (Permutation_in _ (Permutation_sym Hperm)) in Ha.
      apply in_app_or in Ha. tauto. }
    assert (Hrb : In b rest).
    { apply (Permutation_in _ (Permutation_sym Hperm)) in Hb.
      apply in_app_or in Hb. tauto. }
    destruct (ForallOrdPairs_In Hpair a b Hra Hrb) as [E | [E | E]].
    + contradiction.
    + exact E.
    + unfold incompatible in E. rewrite is_good_match_sym. exact E.
Qed.

(** The recursion the loop follows, free of rounds and accumulator. *)
Lemma pair_up_snoc (l : list Offer) (x : Offer) :
  pair_up (l ++ [x])
  = match find (_is_good_match x) l with
    | Some y => (x, y) :: pair_up (list_remove y l)
    | None => pair_up l
    end.
Proof.
  unfold pair_up. rewrite length_app. simpl length.
  rewrite Nat.add_1_r. simpl. rewrite pop_snoc.
  destruct (find (_is_good_match x) l) as [y |] eqn:Ef.
  - rewrite find_matches_loop_acc. simpl. f_equal.
    assert (Hin : In y l) by apply (find_some _ _ Ef).
    apply list_remove_length in Hin.
    replace (length l) with (length (list_remove y l) + 1)%nat by lia.
    apply find_matches_loop_fuel. lia.
  - reflexivity.
Qed.

(** X2: the pairing works from the end of the list.  The last candidate
    is paired with the first compatible one among those before it, and the
    pairing goes on with the candidates that remain; a last candidate
    without a partner is dropped. *)
Theorem pair_up_last_first (l : list Offer) (x : Offer) :
  pair_up (l ++ [x])
  = match find (_is_good_match x) l with
    | Some y => (x, y) :: pair_up (list_remove y l)
    | None => pair_up l
    end.
Proof. exact (pair_up_snoc l x). Qed.

Lemma list_remove_In x y (l : list Offer) :
  In x (list_remove y l) -> In x l.
Proof. apply list_remove_incl. Qed.

Lemma list_remove_keeps_order y b a : forall l l1 l2 l3,
  list_remove y l = l1 ++ b :: l2 ++ a :: l3 ->
  exists l1' l2' l3', l = l1' ++ b :: l2' ++ a :: l3'.
Proof.
  induction l as [| z t IH]; simpl; intros l1 l2 l3 H.
  - destruct l1; discriminate.
  - destruct (Offer_eq_dec z y) as [_ | _].
    + exists (z :: l1), l2, l3. rewrite H. reflexivity.
    + destruct l1 as [| z' l1]; simpl in H; inversion H; subst.
      * assert (Ha : In a t).
        { apply (list_remove_In a y). rewrite H2.
          apply in_or_app. right. left. reflexivity. }
        apply in_split in Ha. destruct Ha as (p & q & ->).
        exists [], p, q. reflexivity.
      * destruct (IH _ _ _ H2) as (l1' & l2' & l3' & ->).
        exists (z' :: l1'), l2', l3'. reflexivity.
Qed.

Lemma pair_up_orientation_aux n : forall l,
  length l = n ->
  forall a b, In (a, b) (pair_up l) ->
              exists l1 l2 l3, l = l1 ++ b :: l2 ++ a :: l3.
Proof.
  induction n as [n IH] using lt_wf_ind. intros l Hlen a b Hin.
  destruct l as [| z t]; [contradiction |].
  destruct (@exists_last _ (z :: t) ltac:(discriminate)) as (l' & x & E).
  rewrite E in *. clear E z t.
  rewrite length_app in Hlen. simpl in Hlen.
  rewrite pair_up_snoc in Hin.
  destruct (find (_is_good_match x) l') as [y |] eqn:Ef.
  - apply find_some in Ef. destruct Ef as [Hy _].
    destruct Hin as [E | Hin].
    + inversion E; subst. apply in_split in Hy. destruct Hy as (p & q & ->).
      exists p, q, []. rewrite <- app_assoc. reflexivity.
    + assert (Hl := list_remove_length y l' Hy).
      destruct (IH (length (list_remove y l')) ltac:(lia) _ eq_refl a b Hin)
        as (l1 & l2 & l3 & E).
      destruct (list_remove_keeps_order _ _ _ _ _ _ _ E)
        as (l1' & l2' & l3' & ->).
      exists l1', l2', (l3' ++ [x]).
      rewrite <- !app_assoc. simpl. rewrite <- app_assoc. reflexivity.
  - destruct (IH (length l') ltac:(lia) _ eq_refl a b Hin)
      as (l1 & l2 & l3 & ->).
    exists l1, l2, (l3 ++ [x]).
    rewrite <- !app_assoc. simpl. rewrite <- app_assoc. reflexivity.
Qed.

(** X16: in every pair the pairing emits, the first offer stands behind
    the second one in the list of candidates: the first component is the
    offer that was popped, the second the partner found in front of it. *)
Theorem pair_up_orientation (l : list Offer) a b
    (Hpair : In (a, b) (pair_up l)) :
  exists l1 l2 l3, l = l1 ++ b :: l2 ++ a :: l3.
Proof. exact (pair_up_orientation_aux (length l) l eq_refl a b Hpair). Qed.

Lemma pair_up_orientation_witness :
  In (Sample.carol, Sample.bob)
     (pair_up [Sample.alice; Sample.bob; Sample.carol])
  /\ exists l1 l2 l3,
       [Sample.alice; Sample.bob; Sample.carol]
       = l1 ++ Sample.bob :: l2 ++ Sample.carol :: l3.
Proof.
  assert (Hpair : In (Sample.carol, Sample.bob)
                     (pair_up [Sample.alice; Sample.bob; Sample.carol]))
    by (vm_compute; auto).
  split; [exact Hpair |].
  exact (pair_up_orientation _ _ _ Hpair).
Defined.

(** * Further properties of the cleanup pass *)

Lemma bind_inv {A B} (m : M A) (f : A -> M B) w r w' :
  bind m f w = (r, w') ->
  (exists e, m w = (Raised e, w') /\ r = Raised e)
  \/ exists a w1, m w = (Returned a, w1) /\ f a w1 = (r, w').
Proof.
  unfold bind. destruct (m w) as [[a | e] w1]; intros H.
  - right. exists a, w1. auto.
  - left. exists e. inversion H. auto.
Qed.

Lemma remove_all_app {A} (eq_dec : forall a b : A, {a = b} + {a <> b})
    (g1 g2 l : list A) :
  remove_all eq_dec (g1 ++ g2) l = remove_all eq_dec g2 (remove_all eq_dec g1 l).
Proof. unfold remove_all. apply fold_left_app. Qed.

Lemma remove_all_incl {A} (eq_dec : forall a b : A, {a = b} + {a <> b})
    (gone l : list A) :
  incl (remove_all eq_dec gone l) l.
Proof. intros x Hx. apply In_remove_all in Hx. tauto. Qed.

Lemma filter_none {A} (p : A -> bool) (l : list A) :
  (forall x, In x l -> p x = false) -> filter p l = [].
Proof.
  induction l as [| x l IH]; simpl; intros H; [reflexivity |].
  rewrite (H x (or_introl eq_refl)). apply IH. intros y Hy. apply H. auto.
Qed.

Section CleanupOutcomes.

Variable env : Collaborators.

(** A loop of deletions, however it ends, has deleted a front part of its
    list and nothing else. *)
Lemma delete_offers_outcome gone : forall w r w',
  for_each gone (Offer_delete env) w = (r, w') ->
  exists done rest,
    gone = done ++ rest
    /\ w' = mkWorld (remove_all Offer_eq_dec done (offers w)) (matches w)
                    (clock w) (next_match_id w) (secrets_drawn w)
                    (trace w ++ map OfferDeleted done) (logs w)
    /\ ((r = Returned tt /\ rest = [])
        \/ exists x rest', r = Raised (Refused (OfferDeleted x))
                           /\ rest = x :: rest').
Proof.
  induction gone as [| o gone IH]; simpl; intros w r w' H.
  - inversion H; subst. exists [], []. simpl.
    rewrite app_nil_r, <- world_eta. auto.
  - apply bind_inv in H. destruct H as [(e & H & ->) | ([] & w1 & H & Hrest)].
    + apply perform_Raised in H. destruct H as (_ & -> & ->).
      exists [], (o :: gone). simpl. rewrite app_nil_r, <- world_eta.
      split; [reflexivity | split; [reflexivity | right; eauto]].
    + apply perform_Returned in H. destruct H as [_ ->].
      apply IH in Hrest. destruct Hrest as (done & rest & -> & -> & Hr).
      exists (o :: done), rest. simpl. rewrite <- app_assoc.
      split; [reflexivity | split; [reflexivity | exact Hr]].
Qed.

Lemma delete_matches_outcome gone : forall w r w',
  for_each gone (Match_delete env) w = (r, w') ->
  exists done rest,
    gone = done ++ rest
    /\ w' = mkWorld (offers w) (remove_all Match_eq_dec done (matches w))
                    (clock w) (next_match_id w) (secrets_drawn w)
                    (trace w ++ map MatchDeleted done) (logs w)
    /\ ((r = Returned tt /\ rest = [])
        \/ exists x rest', r = Raised (Refused (MatchDeleted x))
                           /\ rest = x :: rest').
Proof.
  induction gone as [| m gone IH]; simpl; intros w r w' H.
  - inversion H; subst. exists [], []. simpl.
    rewrite app_nil_r, <- world_eta. auto.
  - apply bind_inv in H. destruct H as [(e & H & ->) | ([] & w1 & H & Hrest)].
    + apply perform_Raised in H. destruct H as (_ & -> & ->).
      exists [], (m :: gone). simpl. rewrite app_nil_r, <- world_eta.
      split; [reflexivity | split; [reflexivity | right; eauto]].
    + apply perform_Returned in H. destruct H as [_ ->].
      apply IH in Hrest. destruct Hrest as (done & rest & -> & -> & Hr).
      exists (m :: done), rest. simpl. rewrite <- app_assoc.
      split; [reflexivity | split; [reflexivity | exact Hr]].
Qed.

Lemma In_filter_of_removed (p : Match -> bool) gone l x :
  In x (filter p (remove_all Match_eq_dec gone l)) -> In x (filter p l).
Proof.
  rewrite !filter_In. intros [H E]. split; [| exact E].
  apply (remove_all_incl Match_eq_dec gone l), H.
Qed.

(** However [clean] ends, it has deleted some expired offers, then some
    declined, some stale and some long agreed matches of the registry it
    started with, and has done nothing else. *)
Lemma clean_outcome self w r w' :
  clean env self w = (r, w') ->
  exists d1 d2 d3 d4,
    incl d1 (filter (offer_expired (clock w)) (offers w))
    /\ incl d2 (filter match_declined (matches w))
    /\ incl d3 (filter (match_stale (clock w)) (matches w))
    /\ incl d4 (filter (match_agreed_expired (clock w)) (matches w))
    /\ w' = mkWorld (remove_all Offer_eq_dec d1 (offers w))
                    (remove_all Match_eq_dec (d2 ++ d3 ++ d4) (matches w))
                    (clock w) (next_match_id w) (secrets_drawn w)
                    (trace w ++ map OfferDeleted d1
                             ++ map MatchDeleted (d2 ++ d3 ++ d4))
                    (logs w)
    /\ (r = Returned tt
        \/ exists e, r = Raised (Refused e) /\ cleanup_event w e).
Proof.
  unfold clean, utcnow, Offer_get_all, Match_get_all. intros H.
  apply bind_inv in H. destruct H as [(e & H & _) | (now & w0 & E & H)];
    [discriminate |]. inversion E; subst now w0; clear E.
  apply bind_inv in H. destruct H as [(e & H & _) | (l1 & w0 & E & H)];
    [discriminate |]. inversion E; subst l1 w0; clear E.
  set (E1 := filter (offer_expired (clock w)) (offers w)) in *.
  (* the offers *)
  apply bind_inv in H. destruct H as [(e & H & ->) | ([] & w1 & H1 & H)].
  { apply delete_offers_outcome in H.
    destruct H as (d1 & rest & Hsplit & -> & [[? _] | (x & rest' & -> & ->)]);
      [discriminate |].
    exists d1, [], [], []. simpl. rewrite app_nil_r.
    split; [rewrite Hsplit; apply incl_appl, incl_refl |].
    do 3 (split; [apply incl_nil_l |]).
    split; [reflexivity |].
    right. eexists. split; [reflexivity |]. simpl. apply filter_In.
    fold E1. rewrite Hsplit. apply in_or_app. right. left. reflexivity. }
  apply delete_offers_outcome in H1.
  destruct H1 as (d1 & rest & Hsplit1 & -> & [[_ ->] | (x & rest' & ? & _)]);
    [| discriminate].
  rewrite app_nil_r in Hsplit1. subst d1.
  apply bind_inv in H. destruct H as [(e & H & _) | (l2 & w0 & E & H)];
    [discriminate |]. inversion E; subst l2 w0; clear E. simpl in H.
  set (D := filter match_declined (matches w)) in *.
  (* the declined matches *)
  apply bind_inv in H. destruct H as [(e & H & ->) | ([] & w2 & H2 & H)].
  { apply delete_matches_outcome in H.
    destruct H as (d2 & rest & Hsplit & -> & [[? _] | (x & rest' & -> & ->)]);
      [discriminate |].
    exists E1, d2, [], []. simpl. rewrite app_nil_r, <- app_assoc.
    split; [apply incl_refl |].
    split; [rewrite Hsplit; apply incl_appl, incl_refl |].
    do 2 (split; [apply incl_nil_l |]).
    split; [reflexivity |].
    right. eexists. split; [reflexivity |]. simpl.
    assert (Hx : In x D)
      by (rewrite Hsplit; apply in_or_app; right; left; reflexivity).
    apply filter_In in Hx. destruct Hx as [Hin Hx].
    split; [exact Hin |]. unfold match_swept. rewrite Hx. reflexivity. }
  apply delete_matches_outcome in H2.
  destruct H2 as (d2 & rest & Hsplit2 & -> & [[_ ->] | (x & rest' & ? & _)]);
    [| discriminate].
  rewrite app_nil_r in Hsplit2. subst d2.
  apply bind_inv in H. destruct H as [(e & H & _) | (l3 & w0 & E & H)];
    [discriminate |]. inversion E; subst l3 w0; clear E. simpl in H.
  (* the stale matches *)
  apply bind_inv in H. destruct H as [(e & H & ->) | ([] & w3 & H3 & H)].
  { apply delete_matches_outcome in H.
    destruct H as (d3 & rest & Hsplit & -> & [[? _] | (x & rest' & -> & ->)]);
      [discriminate |].
    exists E1, D, d3, []. simpl.
    rewrite app_nil_r, remove_all_app, map_app, <- !app_assoc.
    split; [apply incl_refl |]. split; [apply incl_refl |].
    split.
    { intros y Hy. apply (In_filter_of_removed _ D).
      rewrite Hsplit. apply in_or_app. left. exact Hy. }
    split; [apply incl_nil_l |].
    split; [reflexivity |].
    right. eexists. split; [reflexivity |]. simpl.
    assert (Hx : In x (filter (match_stale (clock w)) (matches w))).
    { apply (In_filter_of_removed _ D). rewrite Hsplit.
      apply in_or_app. right. left. reflexivity. }
    apply filter_In in Hx. destruct Hx as [Hin Hx].
    split; [exact Hin |]. unfold match_swept. rewrite Hx.
    apply orb_true_iff. left. apply orb_true_r. }
  apply delete_matches_outcome in H3.
  destruct H3 as (d3 & rest & Hsplit3 & -> & [[_ ->] | (x & rest' & ? & _)]);
    [| discriminate].
  rewrite app_nil_r in Hsplit3. subst d3.
  apply bind_inv in H. destruct H as [(e & H & _) | (l4 & w0 & E & H)];
    [discriminate |]. inversion E; subst l4 w0; clear E. simpl in H.
  set (S3 := filter (match_stale (clock w)) (remove_all Match_eq_dec D (matches w)))
    in *.
  (* the long agreed matches *)
  apply delete_matches_outcome in H.
  destruct H as (d4 & rest & Hsplit & -> & Hr).
  exists E1, D, S3, d4. simpl.
  rewrite !remove_all_app, !map_app, <- !app_assoc.
  assert (Hd4 : forall y, In y (d4 ++ rest) ->
                          In y (filter (match_agreed_expired (clock w)) (matches w))).
  { intros y Hy. rewrite <- Hsplit in Hy.
    apply In_filter_of_removed, In_filter_of_removed in Hy. exact Hy. }
  split; [apply incl_refl |]. split; [apply incl_refl |].
  split.
  { intros y Hy. apply (In_filter_of_removed _ D). exact Hy. }
  split.
  { intros y Hy. apply Hd4, in_or_app. left. exact Hy. }
  split; [reflexivity |].
  destruct Hr as [[-> _] | (x & rest' & -> & ->)]; [left; reflexivity |].
  right. eexists. split; [reflexivity |]. simpl.
  assert (Hx : In x (filter (match_agreed_expired (clock w)) (matches w)))
    by (apply Hd4, in_or_app; right; left; reflexivity).
  apply filter_In in Hx. destruct Hx as [Hin Hx].
  split; [exact Hin |]. unfold match_swept. rewrite Hx. apply orb_true_r.
Qed.

End CleanupOutcomes.

Lemma deleted_offers_app a b :
  deleted_offers (a ++ b) = deleted_offers a ++ deleted_offers b.
Proof. apply flat_map_app. Qed.

Lemma deleted_matches_app a b :
  deleted_matches (a ++ b) = deleted_matches a ++ deleted_matches b.
Proof. apply flat_map_app. Qed.

Lemma deleted_offers_of_offers l : deleted_offers (map OfferDeleted l) = l.
Proof. induction l; simpl; congruence. Qed.

Lemma deleted_offers_of_matches l : deleted_offers (map MatchDeleted l) = [].
Proof. induction l; simpl; congruence. Qed.

Lemma deleted_matches_of_matches l : deleted_matches (map MatchDeleted l) = l.
Proof. induction l; simpl; congruence. Qed.

Lemma deleted_matches_of_offers l : deleted_matches (map OfferDeleted l) = [].
Proof. induction l; simpl; congruence. Qed.

Lemma created_matches_of_offers l : created_matches (map OfferDeleted l) = [].
Proof. induction l; simpl; congruence. Qed.

Lemma created_matches_of_deletions l :
  created_matches (map MatchDeleted l) = [].
Proof. induction l; simpl; congruence. Qed.

Lemma sent_mails_of_offers l : sent_mails (map OfferDeleted l) = [].
Proof. induction l; simpl; congruence. Qed.

Lemma sent_mails_of_deletions l : sent_mails (map MatchDeleted l) = [].
Proof. induction l; simpl; congruence. Qed.

Lemma match_declined_iff m :
  match_declined m = true
  <-> new_agrees m = Some false \/ old_agrees m = Some false.
Proof.
  unfold match_declined, is_False. rewrite orb_true_iff.
  destruct (new_agrees m) as [[] |], (old_agrees m) as [[] |];
    intuition (discriminate || auto).
Qed.

Section CleanupExtras.

Variable env : Collaborators.

(** The effects of [clean], however it ends. *)
Lemma clean_effects self w r w'
    (Hrun : clean env self w = (r, w')) :
  Forall (cleanup_event w) (events_since w w')
  /\ created_matches (events_since w w') = []
  /\ sent_mails (events_since w w') = []
  /\ offers w'
     = remove_all Offer_eq_dec (deleted_offers (events_since w w')) (offers w)
  /\ matches w'
     = remove_all Match_eq_dec (deleted_matches (events_since w w')) (matches w)
  /\ clock w' = clock w /\ next_match_id w' = next_match_id w
  /\ secrets_drawn w' = secrets_drawn w /\ logs w' = logs w
  /\ (r = Returned tt \/ exists e, r = Raised (Refused e) /\ cleanup_event w e).
Proof.
  apply clean_outcome in Hrun.
  destruct Hrun as (d1 & d2 & d3 & d4 & H1 & H2 & H3 & H4 & -> & Hr).
  assert (Hev : events_since w
            (mkWorld (remove_all Offer_eq_dec d1 (offers w))
               (remove_all Match_eq_dec (d2 ++ d3 ++ d4) (matches w))
               (clock w) (next_match_id w) (secrets_drawn w)
               (trace w ++ map OfferDeleted d1
                        ++ map MatchDeleted (d2 ++ d3 ++ d4)) (logs w))
          = map OfferDeleted d1 ++ map MatchDeleted (d2 ++ d3 ++ d4))
    by (apply events_since_app; reflexivity).
  rewrite Hev. simpl.
  assert (Hall : Forall (cleanup_event w)
            (map OfferDeleted d1 ++ map MatchDeleted (d2 ++ d3 ++ d4))).
  { apply Forall_app. split; apply Forall_map, Forall_forall; intros x Hx; simpl.
    - apply filter_In, H1, Hx.
    - unfold match_swept.
      apply in_app_or in Hx. destruct Hx as [Hx | Hx];
        [| apply in_app_or in Hx; destruct Hx as [Hx | Hx]].
      + apply H2, filter_In in Hx. destruct Hx as [Hin ->]. auto.
      + apply H3, filter_In in Hx. destruct Hx as [Hin ->].
        rewrite orb_true_r. auto.
      + apply H4, filter_In in Hx. destruct Hx as [Hin ->].
        rewrite orb_true_r. auto. }
  split; [exact Hall |].
  split.
  { unfold created_matches. rewrite flat_map_app.
    fold (created_matches (map OfferDeleted d1)).
    fold (created_matches (map MatchDeleted (d2 ++ d3 ++ d4))).
    rewrite created_matches_of_offers, created_matches_of_deletions.
    reflexivity. }
  split.
  { unfold sent_mails. rewrite flat_map_app.
    fold (sent_mails (map OfferDeleted d1)).
    fold (sent_mails (map MatchDeleted (d2 ++ d3 ++ d4))).
    rewrite sent_mails_of_offers, sent_mails_of_deletions. reflexivity. }
  rewrite deleted_offers_app, deleted_matches_app, deleted_offers_of_offers,
    deleted_offers_of_matches, deleted_matches_of_offers,
    deleted_matches_of_matches, app_nil_r.
  repeat (split; [reflexivity |]). exact Hr.
Qed.

(** X3: however a run of [clean] ends, normally or because a deletion
    was refused, all it has done is delete expired offers and declined,
    stale or long agreed matches of the registry it started with: it
    creates no match and sends no mail, every entity that left the
    registry has its deletion on record, and nothing else changes. *)
Theorem clean_only_deletes self w r w'
    (Hrun : clean env self w = (r, w')) :
  Forall (cleanup_event w) (events_since w w')
  /\ created_matches (events_since w w') = []
  /\ sent_mails (events_since w w') = []
  /\ offers w'
     = remove_all Offer_eq_dec (deleted_offers (events_since w w')) (offers w)
  /\ matches w'
     = remove_all Match_eq_dec (deleted_matches (events_since w w')) (matches w)
  /\ clock w' = clock w /\ next_match_id w' = next_match_id w
  /\ secrets_drawn w' = secrets_drawn w /\ logs w' = logs w
  /\ (r = Returned tt \/ exists e, r = Raised (Refused e) /\ cleanup_event w e).
Proof. exact (clean_effects self w r w' Hrun). Qed.

(** X4: a run of [clean] that returns deletes every match one side of
    which has declined, whatever the age of the match and whatever the
    other side answered. *)
Theorem clean_deletes_declined_matches self w w' m
    (Hrun : clean env self w = (Returned tt, w'))
    (Hin : In m (matches w))
    (Hdeclined : new_agrees m = Some false \/ old_agrees m = Some false) :
  In (MatchDeleted m) (events_since w w') /\ ~ In m (matches w').
Proof.
  apply match_declined_iff in Hdeclined.
  apply clean_Returned in Hrun.
  assert (Htrace := f_equal trace Hrun).
  assert (Hmatches := f_equal matches Hrun).
  simpl in Htrace, Hmatches. clear Hrun.
  apply events_since_app in Htrace. rewrite <- !map_app in Htrace.
  split.
  - rewrite Htrace, In_MatchDeleted. apply in_or_app. left.
    apply filter_In. auto.
  - rewrite Hmatches.
    unfold matches_outdated_swept, matches_stale_swept, matches_declined_swept.
    rewrite !filter_In, Hdeclined. simpl. intros [[[_ E] _] _]. discriminate.
Qed.

(** X5: a run of [clean] that returns deletes a match both sides agreed
    to exactly when its creation time plus 28 days lies strictly before
    the time of the run; a younger agreed match stays in the registry. *)
Theorem clean_deletes_long_agreed_matches self w w' m
    (Hrun : clean env self w = (Returned tt, w'))
    (Hin : In m (matches w))
    (Hnew : new_agrees m = Some true)
    (Hold : old_agrees m = Some true) :
  (In (MatchDeleted m) (events_since w w')
   <-> match_created_ts m + 28 * one_day < clock w)
  /\ (In m (matches w') <-> clock w <= match_created_ts m + 28 * one_day).
Proof.
  apply clean_Returned in Hrun.
  assert (Htrace := f_equal trace Hrun).
  assert (Hmatches := f_equal matches Hrun).
  simpl in Htrace, Hmatches. clear Hrun.
  apply events_since_app in Htrace. rewrite <- !map_app in Htrace.
  assert (Hd : match_declined m = false)
    by (unfold match_declined; rewrite Hnew, Hold; reflexivity).
  assert (Hs : match_stale (clock w) m = false)
    by (unfold match_stale; rewrite Hnew, Hold; reflexivity).
  assert (Ha : match_agreed_expired (clock w) m = true
               <-> match_created_ts m + 28 * one_day < clock w).
  { unfold match_agreed_expired. rewrite Hnew, Hold. simpl.
    rewrite Z.ltb_lt. unfold timedelta, one_day, one_hour, one_second. lia. }
  split.
  - rewrite Htrace, In_MatchDeleted, !in_app_iff, <- Ha.
    unfold matches_stale_swept, matches_declined_swept.
    rewrite !filter_In, Hd, Hs. simpl. intuition discriminate.
  - rewrite Hmatches.
    unfold matches_outdated_swept, matches_stale_swept, matches_declined_swept.
    rewrite !filter_In, Hd, Hs. simpl.
    split.
    + intros [_ E].
      destruct (Z.lt_ge_cases (match_created_ts m + 28 * one_day) (clock w))
        as [Hlt | Hge];
        [| unfold one_day, one_hour, one_second in *; simpl in *; lia].
      apply Ha in Hlt. rewrite Hlt in E. discriminate.
    + intros Hle. split; [auto |].
      apply negb_true_iff, not_true_is_false. intros E. apply Ha in E.
      unfold one_day, one_hour, one_second in *; simpl in *; lia.
Qed.

Lemma clean_nothing_to_do self w :
  filter (offer_expired (clock w)) (offers w) = [] ->
  filter match_declined (matches w) = [] ->
  filter (match_stale (clock w)) (matches w) = [] ->
  filter (match_agreed_expired (clock w)) (matches w) = [] ->
  clean env self w = (Returned tt, w).
Proof.
  intros H1 H2 H3 H4.
  unfold clean, utcnow, Offer_get_all, Match_get_all, bind.
  rewrite H1. simpl. rewrite H2. simpl. rewrite H3. simpl. rewrite H4.
  reflexivity.
Qed.

Lemma swept_filters (now : Z) (l : list Match) :
  filter (fun m => negb (match_agreed_expired now m))
    (filter (fun m => negb (match_stale now m))
       (filter (fun m => negb (match_declined m)) l))
  = filter (fun m => negb (match_swept now m)) l.
Proof.
  rewrite !filter_filter. apply filter_ext. intros m. unfold match_swept.
  destruct (match_declined m), (match_stale now m),
    (match_agreed_expired now m); reflexivity.
Qed.

(** X6: a run of [clean] that returns keeps exactly the offers that are
    not expired and exactly the matches none of the three rules selects,
    in their order.  In particular a confirmed offer stays, and so does a
    match the new side agreed to while the old side has been undecided
    for at most seven days. *)
Theorem clean_keeps_the_rest self w w'
    (Hrun : clean env self w = (Returned tt, w')) :
  offers w' = filter (fun o => negb (offer_expired (clock w) o)) (offers w)
  /\ matches w' = filter (fun m => negb (match_swept (clock w) m)) (matches w)
  /\ (forall o, In o (offers w) -> confirmed o = true -> In o (offers w'))
  /\ (forall m, In m (matches w) ->
                new_agrees m = Some true -> old_agrees m = None ->
                clock w <= match_created_ts m + 7 * one_day ->
                In m (matches w')).
Proof.
  apply clean_Returned in Hrun.
  assert (Hoffers := f_equal offers Hrun).
  assert (Hmatches := f_equal matches Hrun).
  simpl in Hoffers, Hmatches. clear Hrun.
  unfold matches_outdated_swept, matches_stale_swept, matches_declined_swept
    in Hmatches.
  rewrite swept_filters in Hmatches.
  split; [exact Hoffers | split; [exact Hmatches | split]].
  - intros o Hin Hc. rewrite Hoffers. apply filter_In. split; [exact Hin |].
    unfold offer_expired. rewrite Hc. reflexivity.
  - intros m Hin Hn Ho Hts. rewrite Hmatches. apply filter_In.
    split; [exact Hin |].
    unfold match_swept, match_declined, match_stale, match_agreed_expired.
    rewrite Hn, Ho. simpl.
    replace (match_created_ts m + timedelta 7 <? clock w) with false;
      [reflexivity |].
    symmetry. apply Z.ltb_ge.
    unfold timedelta, one_day, one_hour, one_second in *. lia.
Qed.

(** X7: [clean] is idempotent.  After a run that returns, a second run at
    the same time finds nothing to delete: it returns without asking the
    database for anything and leaves the world as it is. *)
Theorem clean_twice self self' w w'
    (Hrun : clean env self w = (Returned tt, w')) :
  clean env self' w' = (Returned tt, w').
Proof.
  apply clean_Returned in Hrun.
  assert (Hoffers := f_equal offers Hrun).
  assert (Hmatches := f_equal matches Hrun).
  assert (Hclock := f_equal clock Hrun).
  simpl in Hoffers, Hmatches, Hclock. clear Hrun.
  unfold matches_outdated_swept, matches_stale_swept, matches_declined_swept
    in Hmatches.
  rewrite swept_filters in Hmatches.
  assert (Hkept : forall m, In m (matches w') ->
                            match_swept (clock w) m = false).
  { intros m Hm. rewrite Hmatches in Hm. apply filter_In in Hm.
    apply negb_true_iff, Hm. }
  apply clean_nothing_to_do; rewrite ?Hclock.
  - apply filter_none. intros o Ho. rewrite Hoffers in Ho.
    apply filter_In in Ho. apply negb_true_iff, Ho.
  - apply filter_none. intros m Hm. apply Hkept in Hm.
    unfold match_swept in Hm. apply orb_false_iff in Hm.
    destruct Hm as [Hm _]. apply orb_false_iff in Hm. tauto.
  - apply filter_none. intros m Hm. apply Hkept in Hm.
    unfold match_swept in Hm. apply orb_false_iff in Hm.
    destruct Hm as [Hm _]. apply orb_false_iff in Hm. tauto.
  - apply filter_none. intros m Hm. apply Hkept in Hm.
    unfold match_swept in Hm. apply orb_false_iff in Hm. tauto.
Qed.

End CleanupExtras.

Lemma clean_keeps_the_rest_witness :
  clean Sample.env Sample.committing More.world
  = (Returned tt, More.world_cleaned)
  /\ matches More.world_cleaned = [Sample.agreed; Sample.recent]
  /\ In Sample.recent (matches More.world_cleaned).
Proof.
  assert (Hrun : clean Sample.env Sample.committing More.world
                 = (Returned tt, More.world_cleaned))
    by (vm_compute; reflexivity).
  split; [exact Hrun | split; [vm_compute; reflexivity |]].
  apply (clean_keeps_the_rest Sample.env Sample.committing More.world
           More.world_cleaned Hrun).
  - simpl. auto 6.
  - reflexivity.
  - reflexivity.
  - vm_compute. discriminate.
Defined.

Lemma clean_twice_witness :
  clean Sample.env Sample.committing More.world
  = (Returned tt, More.world_cleaned)
  /\ clean Sample.env Sample.committing More.world_cleaned
     = (Returned tt, More.world_cleaned).
Proof.
  assert (Hrun : clean Sample.env Sample.committing More.world
                 = (Returned tt, More.world_cleaned))
    by (vm_compute; reflexivity).
  split; [exact Hrun |].
  exact (clean_twice Sample.env Sample.committing Sample.committing
           More.world More.world_cleaned Hrun).
Defined.

Lemma clean_only_deletes_witness :
  clean Sample.env_no_delete Sample.committing More.world
  = (Raised (Refused (MatchDeleted More.declined)), More.world_clean_refused)
  /\ events_since More.world More.world_clean_refused = [OfferDeleted Sample.dave]
  /\ matches More.world_clean_refused = matches More.world
  /\ sent_mails (events_since More.world More.world_clean_refused) = [].
Proof.
  assert (Hrun : clean Sample.env_no_delete Sample.committing More.world
                 = (Raised (Refused (MatchDeleted More.declined)),
                    More.world_clean_refused))
    by (vm_compute; reflexivity).
  split; [exact Hrun |].
  split; [vm_compute; reflexivity |].
  split; [vm_compute; reflexivity |].
  apply (clean_only_deletes Sample.env_no_delete Sample.committing More.world
           _ _ Hrun).
Defined.

Lemma clean_deletes_declined_matches_witness :
  clean Sample.env Sample.committing More.world
  = (Returned tt, More.world_cleaned)
  /\ In More.declined (matches More.world)
  /\ new_agrees More.declined = Some false
  /\ In (MatchDeleted More.declined)
        (events_since More.world More.world_cleaned)
  /\ ~ In More.declined (matches More.world_cleaned).
Proof.
  assert (Hrun : clean Sample.env Sample.committing More.world
                 = (Returned tt, More.world_cleaned))
    by (vm_compute; reflexivity).
  assert (Hin : In More.declined (matches More.world)) by (simpl; auto).
  split; [exact Hrun | split; [exact Hin | split; [reflexivity |]]].
  apply (clean_deletes_declined_matches Sample.env Sample.committing
           More.world More.world_cleaned More.declined Hrun Hin).
  left. reflexivity.
Defined.

Lemma clean_deletes_long_agreed_matches_witness :
  clean Sample.env Sample.committing More.world
  = (Returned tt, More.world_cleaned)
  /\ In More.old_deal (matches More.world)
  /\ In (MatchDeleted More.old_deal)
        (events_since More.world More.world_cleaned)
  /\ In Sample.agreed (matches More.world_cleaned).
Proof.
  assert (Hrun : clean Sample.env Sample.committing More.world
                 = (Returned tt, More.world_cleaned))
    by (vm_compute; reflexivity).
  assert (Hin : In More.old_deal (matches More.world)) by (simpl; auto).
  assert (Hin' : In Sample.agreed (matches More.world)) by (simpl; auto).
  split; [exact Hrun | split; [exact Hin | split]].
  - apply (clean_deletes_long_agreed_matches Sample.env Sample.committing
             More.world More.world_cleaned More.old_deal Hrun Hin
             eq_refl eq_refl).
    vm_compute. reflexivity.
  - apply (clean_deletes_long_agreed_matches Sample.env Sample.committing
             More.world More.world_cleaned Sample.agreed Hrun Hin'
             eq_refl eq_refl).
    vm_compute. discriminate.
Defined.


(** * Further properties of proposing *)

Section ProposeExtras.

Variable env : Collaborators.

Lemma process_found_matches_unfold self pairs w :
  _dry_run self = false ->
  process_found_matches env self pairs w = for_each pairs (propose_one env) w.
Proof.
  intros Hdoit. unfold process_found_matches. rewrite Hdoit. reflexivity.
Qed.

Lemma Match_create_Raised sec nid oid w e w' :
  Match_create env sec nid oid w = (Raised e, w') ->
  e = Refused (MatchCreated
                 (mkMatch (next_match_id w) sec nid oid None None (clock w)))
  /\ w' = w.
Proof.
  unfold Match_create, perform.
  destruct (accepts env (trace w) _); intros H; inversion H; subst.
  split; reflexivity.
Qed.

Lemma send_mail_about_match_Raised my their sec w e w' :
  _send_mail_about_match env my their sec w = (Raised e, w') ->
  trace w' = trace w /\ offers w' = offers w /\ matches w' = matches w
  /\ (e = RateUnavailable
      \/ exists msg, e = Refused (MailSent msg) /\ to msg = ToOne (email my)).
Proof.
  unfold _send_mail_about_match, mail_send, log. intros H.
  apply bind_Raised in H. destruct H as [H | (c & w1 & Hc & H)].
  { apply currency_convert_Raised in H. destruct H as (_ & -> & ->). auto. }
  apply currency_convert_Returned in Hc. destruct Hc as [Hc ->].
  apply bind_Raised in H. destruct H as [H | ([] & w2 & Hl & H)].
  { discriminate. }
  inversion Hl; subst w2; clear Hl.
  apply perform_Raised in H. destruct H as (_ & -> & ->). simpl.
  repeat split. right. eexists. split; reflexivity.
Qed.

(** One proposal, however it ends: all three effects, or a front part of
    them when a collaborator fails. *)
Lemma propose_one_outcome pair w r w' :
  propose_one env pair w = (r, w') ->
  offers w' = offers w
  /\ ((exists t,
         r = Returned tt /\ proposal_of pair t
         /\ trace w' = trace w ++ proposal_events t
         /\ matches w' = matches w ++ [fst (fst t)])
      \/ (exists e partial,
            r = Raised e /\ unfinished_proposal partial
            /\ trace w' = trace w ++ partial
            /\ matches w' = matches w ++ created_matches partial
            /\ Forall (fun m => old_agrees m = None /\ new_agrees m = None)
                      (created_matches partial))).
Proof.
  unfold propose_one. intros H.
  apply bind_inv in H. destruct H as [(e & H & _) | (sec & w1 & Hsec & H)];
    [discriminate |].
  inversion Hsec; subst sec w1; clear Hsec.
  apply bind_inv in H. destruct H as [(e & H & _) | ([] & w1 & Hlog & H)];
    [discriminate |].
  inversion Hlog; subst w1; clear Hlog.
  apply bind_inv in H. destruct H as [(e & H & ->) | (m & w1 & Hc & H)].
  { apply Match_create_Raised in H. destruct H as [-> ->]. simpl.
    split; [reflexivity |]. right. eexists _, []. simpl.
    rewrite !app_nil_r. unfold unfinished_proposal. auto 8. }
  apply Match_create_Returned in Hc. destruct Hc as [Hm ->].
  simpl in Hm.
  apply bind_inv in H. destruct H as [(e & H & ->) | ([] & w2 & H1 & H)].
  { apply send_mail_about_match_Raised in H.
    destruct H as (Ht & Ho & Hms & _). simpl in Ht, Ho, Hms.
    split; [exact Ho |]. right. exists e, [MatchCreated m].
    rewrite Ht, Hms. subst m. simpl. unfold unfinished_proposal.
    repeat split; eauto. }
  apply send_mail_about_match_Returned in H1. destruct H1 as (c1 & _ & ->).
  destruct r as [[] | e].
  - apply send_mail_about_match_Returned in H. destruct H as (c2 & _ & ->).
    simpl. split; [reflexivity |]. left.
    exists (m,
            suggested_mail env (older pair) (newer pair)
              (create_secret env (secrets_drawn w)) c1,
            suggested_mail env (newer pair) (older pair)
              (create_secret env (secrets_drawn w)) c2).
    subst m. unfold proposal_of, proposal_events. simpl.
    rewrite <- !app_assoc. simpl. repeat split; reflexivity.
  - apply send_mail_about_match_Raised in H.
    destruct H as (Ht & Ho & Hms & _). simpl in Ht, Ho, Hms.
    split; [exact Ho |]. right.
    exists e, [MatchCreated m;
               MailSent (suggested_mail env (older pair) (newer pair)
                           (create_secret env (secrets_drawn w)) c1)].
    rewrite Ht, Hms, <- app_assoc. subst m. simpl. unfold unfinished_proposal.
    repeat split; eauto 8.
Qed.

Lemma created_matches_app a b :
  created_matches (a ++ b) = created_matches a ++ created_matches b.
Proof. apply flat_map_app. Qed.

Lemma created_matches_of_proposals done :
  created_matches (flat_map proposal_events done)
  = map (fun t => fst (fst t)) done.
Proof.
  induction done as [| t done IH]; simpl; [reflexivity |].
  f_equal. exact IH.
Qed.

Lemma deleted_of_proposals done :
  deleted_matches (flat_map proposal_events done) = []
  /\ deleted_offers (flat_map proposal_events done) = [].
Proof. induction done as [| t done IH]; simpl; auto. Qed.

Lemma deleted_of_unfinished partial :
  unfinished_proposal partial ->
  deleted_matches partial = [] /\ deleted_offers partial = [].
Proof.
  intros [-> | [(m & ->) | (m & msg & ->)]]; simpl; auto.
Qed.

Lemma propose_loop_outcome pairs : forall w r w',
  for_each pairs (propose_one env) w = (r, w') ->
  offers w' = offers w
  /\ exists done partial,
       trace w' = trace w ++ flat_map proposal_events done ++ partial
       /\ unfinished_proposal partial
       /\ Forall2 proposal_of (firstn (length done) pairs) done
       /\ (r = Returned tt -> partial = [] /\ length done = length pairs)
       /\ matches w'
          = matches w ++ map (fun t => fst (fst t)) done
                      ++ created_matches partial
       /\ Forall (fun m => old_agrees m = None /\ new_agrees m = None)
                 (created_matches partial).
Proof.
  induction pairs as [| p pairs IH]; simpl; intros w r w' H.
  - inversion H; subst. split; [reflexivity |]. exists [], []. simpl.
    rewrite !app_nil_r. unfold unfinished_proposal. repeat split; auto.
  - apply bind_inv in H. destruct H as [(e & H & ->) | ([] & w1 & H1 & H)].
    + apply propose_one_outcome in H.
      destruct H as (Ho & [(t & Hr & _) | (e' & partial & _ & Hp & Ht & Hm & Hu)]);
        [discriminate |].
      split; [exact Ho |]. exists [], partial. simpl.
      repeat split; auto; discriminate.
    + apply propose_one_outcome in H1.
      destruct H1 as (Ho & [(t & _ & Hof & Ht & Hm) | (e' & ? & Hr & _)]);
        [| discriminate].
      apply IH in H.
      destruct H as (Ho' & done & partial & Ht' & Hp & Hall & Hret & Hm' & Hu).
      split; [congruence |]. exists (t :: done), partial. simpl.
      rewrite Ht', Ht, Hm', Hm, <- !app_assoc. simpl.
      repeat split; auto.
      * apply Hret; assumption.
      * f_equal. apply Hret. assumption.
Qed.

(** X8: outside a dry run, however [process_found_matches] ends, its
    effects are the complete proposals of a front part of the list, pair
    by pair a new undecided match followed by the mail to the owner of
    the old and the mail to the owner of the new offer, and then at most
    the beginning of one more proposal.  No mail is sent before its match
    is created, nothing is deleted, the offers are untouched, and a run
    that returns has completed the proposal of every pair. *)
Theorem process_found_matches_trace self pairs w r w'
    (Hdoit : _dry_run self = false)
    (Hrun : process_found_matches env self pairs w = (r, w')) :
  exists done partial,
    events_since w w' = flat_map proposal_events done ++ partial
    /\ unfinished_proposal partial
    /\ Forall2 proposal_of (firstn (length done) pairs) done
    /\ (r = Returned tt -> partial = [] /\ length done = length pairs)
    /\ matches w' = matches w ++ created_matches (events_since w w')
    /\ Forall (fun m => old_agrees m = None /\ new_agrees m = None)
              (created_matches (events_since w w'))
    /\ deleted_matches (events_since w w') = []
    /\ deleted_offers (events_since w w') = []
    /\ offers w' = offers w.
Proof.
  rewrite process_found_matches_unfold in Hrun by assumption.
  apply propose_loop_outcome in Hrun.
  destruct Hrun as (Ho & done & partial & Ht & Hp & Hall & Hret & Hm & Hu).
  apply events_since_app in Ht.
  exists done, partial. rewrite Ht.
  rewrite created_matches_app, created_matches_of_proposals,
    deleted_matches_app, deleted_offers_app.
  destruct (deleted_of_proposals done) as [-> ->].
  destruct (deleted_of_unfinished partial Hp) as [-> ->].
  repeat split; auto.
  - apply Hret; assumption.
  - apply Hret; assumption.
  - apply Forall_app. split; [| exact Hu].
    clear - Hall. revert Hall. generalize (firstn (length done) pairs).
    intros l Hall. induction Hall as [| p t l done Hpt _ IH]; simpl;
      constructor; [| exact IH].
    unfold proposal_of in Hpt. tauto.
Qed.

(** X9: when the two offers of a pair have the same creation time, the
    second offer of the pair is taken as the old one: outside a dry run
    the new match names the second offer as old and the first as new, and
    the first of the two mails goes to the owner of the second offer. *)
Theorem process_found_matches_tie self offer1 offer2 rest w w'
    (Hdoit : _dry_run self = false)
    (Htie : created_ts offer1 = created_ts offer2)
    (Hrun : process_found_matches env self ((offer1, offer2) :: rest) w
            = (Returned tt, w')) :
  exists m msg1 msg2 w1,
    events_since w w1 = [MatchCreated m; MailSent msg1; MailSent msg2]
    /\ old_offer_id m = offer_id offer2
    /\ new_offer_id m = offer_id offer1
    /\ to msg1 = ToOne (email offer2)
    /\ to msg2 = ToOne (email offer1)
    /\ process_found_matches env self rest w1 = (Returned tt, w').
Proof.
  rewrite process_found_matches_unfold in Hrun by assumption.
  simpl in Hrun.
  apply bind_Returned in Hrun. destruct Hrun as ([] & w1 & H1 & Hrest).
  apply propose_one_outcome in H1.
  destruct H1 as (_ & [(t & _ & Hof & Ht & _) | (e & ? & Hr & _)]);
    [| discriminate].
  unfold proposal_of, older, newer in Hof. simpl in Hof.
  rewrite Htie, Z.ltb_irrefl in Hof.
  destruct Hof as (Hold & Hnew & _ & _ & Hto1 & Hto2 & _).
  exists (fst (fst t)), (snd (fst t)), (snd t), w1.
  split; [apply events_since_app; exact Ht |].
  repeat (split; [assumption |]).
  rewrite process_found_matches_unfold by assumption. exact Hrest.
Qed.

End ProposeExtras.

Lemma process_found_matches_trace_witness :
  _dry_run Sample.committing = false
  /\ process_found_matches Sample.env Sample.committing
       [(Sample.bob, Sample.alice)] Sample.unmatched
     = (Returned tt, Sample.unmatched_proposed)
  /\ exists done partial,
       events_since Sample.unmatched Sample.unmatched_proposed
       = flat_map proposal_events done ++ partial
       /\ unfinished_proposal partial
       /\ Forall2 proposal_of
            (firstn (length done) [(Sample.bob, Sample.alice)]) done.
Proof.
  assert (Hdoit : _dry_run Sample.committing = false) by reflexivity.
  assert (Hrun : process_found_matches Sample.env Sample.committing
                   [(Sample.bob, Sample.alice)] Sample.unmatched
                 = (Returned tt, Sample.unmatched_proposed))
    by (vm_compute; reflexivity).
  split; [exact Hdoit | split; [exact Hrun |]].
  destruct (process_found_matches_trace Sample.env Sample.committing
              [(Sample.bob, Sample.alice)] Sample.unmatched (Returned tt)
              Sample.unmatched_proposed Hdoit Hrun)
    as (done & partial & Hev & Hp & Hall & _).
  exists done, partial. auto.
Defined.

Lemma process_found_matches_tie_witness :
  _dry_run Sample.committing = false
  /\ created_ts Sample.bob = created_ts More.gina
  /\ process_found_matches Sample.env Sample.committing
       [(Sample.bob, More.gina)] More.twins
     = (Returned tt, More.twins_proposed)
  /\ exists m, In m (matches More.twins_proposed)
               /\ old_offer_id m = offer_id More.gina
               /\ new_offer_id m = offer_id Sample.bob.
Proof.
  assert (Hdoit : _dry_run Sample.committing = false) by reflexivity.
  assert (Htie : created_ts Sample.bob = created_ts More.gina) by reflexivity.
  assert (Hrun : process_found_matches Sample.env Sample.committing
                   [(Sample.bob, More.gina)] More.twins
                 = (Returned tt, More.twins_proposed))
    by (vm_compute; reflexivity).
  split; [exact Hdoit | split; [exact Htie | split; [exact Hrun |]]].
  destruct (process_found_matches_tie Sample.env Sample.committing
              Sample.bob More.gina [] More.twins More.twins_proposed
              Hdoit Htie Hrun)
    as (m & msg1 & msg2 & w1 & _ & _ & _ & _ & _ & _).
  eexists. split; [left; reflexivity |]. split; reflexivity.
Defined.

(** * Further properties of the dry run *)

Lemma events_since_same_trace w w' :
  trace w' = trace w -> events_since w w' = [].
Proof.
  intros H. apply events_since_app. rewrite app_nil_r. exact H.
Qed.

Section DryRunExtras.

Variable env : Collaborators.

(** X10: in a dry run [process_found_matches] asks no collaborator for
    anything.  Whatever the pairs and whatever the database, the mail
    server and the currency service would answer, it returns, creates no
    match, draws no secret, sends no mail and writes one log line per
    pair. *)
Theorem process_found_matches_dry self pairs w
    (Hdry : _dry_run self = true) :
  exists w',
    process_found_matches env self pairs w = (Returned tt, w')
    /\ events_since w w' = []
    /\ offers w' = offers w /\ matches w' = matches w
    /\ next_match_id w' = next_match_id w
    /\ secrets_drawn w' = secrets_drawn w
    /\ logs w' = logs w ++ map (fun p => LogDryRunPair (fst p) (snd p)) pairs.
Proof.
  eexists. split; [apply process_found_matches_dry_run; exact Hdry |].
  split; [apply events_since_same_trace; reflexivity |].
  repeat split; reflexivity.
Qed.

(** X11: in a dry run [process_approved_matches] asks no collaborator for
    anything: it returns, sends no deal mail, deletes no match and writes
    one log line per match both sides agreed to, so these matches are
    still in the registry afterwards. *)
Theorem process_approved_matches_dry self w
    (Hdry : _dry_run self = true) :
  exists w',
    process_approved_matches env self w = (Returned tt, w')
    /\ events_since w w' = []
    /\ offers w' = offers w /\ matches w' = matches w
    /\ logs w' = logs w ++ map LogDryRunMatch (filter match_approved (matches w)).
Proof.
  eexists. split; [apply process_approved_matches_dry_run; exact Hdry |].
  split; [apply events_since_same_trace; reflexivity |].
  repeat split; reflexivity.
Qed.

(** X12: without [--doit], however [main] ends, the cleanup pass is the
    only part of it that touches the collaborators: every effect is the
    deletion of an expired offer or of a declined, stale or long agreed
    match of the registry, no match is created and no mail is sent; when
    the run returns, the pairing of the candidates of the cleaned
    registry has been computed and its size logged. *)
Theorem main_without_doit w r w'
    (Hrun : main env false w = (r, w')) :
  Forall (cleanup_event w) (events_since w w')
  /\ created_matches (events_since w w') = []
  /\ sent_mails (events_since w w') = []
  /\ offers w'
     = remove_all Offer_eq_dec (deleted_offers (events_since w w')) (offers w)
  /\ matches w'
     = remove_all Match_eq_dec (deleted_matches (events_since w w')) (matches w)
  /\ (r = Returned tt ->
      In (LogFound
            (length (pair_up (get_match_candidates env (offers w') (matches w')
                                                   (clock w')))))
         (logs w')).
Proof.
  rewrite main_dry_run in Hrun.
  destruct (clean env (mkMatchmaker true) w) as [[[] | e] w1] eqn:Hclean;
    apply clean_effects in Hclean;
    destruct Hclean as (Hall & Hc & Hs & Ho & Hm & _);
    inversion Hrun; subst; clear Hrun.
  - unfold events_since in *. simpl.
    repeat (split; [assumption |]).
    intros _. apply in_or_app. right. simpl. auto.
  - repeat (split; [assumption |]). discriminate.
Qed.

End DryRunExtras.

Lemma process_found_matches_dry_witness :
  _dry_run (mkMatchmaker true) = true
  /\ exists w',
       process_found_matches Sample.env_no_delete (mkMatchmaker true)
         [(Sample.bob, Sample.alice)] Sample.unmatched = (Returned tt, w')
       /\ events_since Sample.unmatched w' = []
       /\ matches w' = matches Sample.unmatched.
Proof.
  split; [reflexivity |].
  destruct (process_found_matches_dry Sample.env_no_delete (mkMatchmaker true)
              [(Sample.bob, Sample.alice)] Sample.unmatched eq_refl)
    as (w' & Hrun & Hev & _ & Hm & _).
  exists w'. auto.
Defined.

Lemma process_approved_matches_dry_witness :
  _dry_run (mkMatchmaker true) = true
  /\ exists w',
       process_approved_matches Sample.env (mkMatchmaker true) Sample.settled
       = (Returned tt, w')
       /\ events_since Sample.settled w' = []
       /\ matches w' = [Sample.agreed].
Proof.
  split; [reflexivity |].
  destruct (process_approved_matches_dry Sample.env (mkMatchmaker true)
              Sample.settled eq_refl)
    as (w' & Hrun & Hev & _ & Hm & _).
  exists w'. auto.
Defined.

Lemma main_without_doit_witness :
  main Sample.env false Sample.world = (Returned tt, Sample.world_dry_run)
  /\ sent_mails (events_since Sample.world Sample.world_dry_run) = []
  /\ created_matches (events_since Sample.world Sample.world_dry_run) = [].
Proof.
  assert (Hrun : main Sample.env false Sample.world
                 = (Returned tt, Sample.world_dry_run))
    by (vm_compute; reflexivity).
  split; [exact Hrun |].
  split;
    apply (main_without_doit Sample.env Sample.world (Returned tt)
             Sample.world_dry_run Hrun).
Defined.

(** * Further properties of finalizing *)

Lemma deleted_matches_of_finalize env registry ms :
  Forall (fun m => deal_mail_of env registry m <> None) ms ->
  deleted_matches (finalize_events env registry ms) = ms
  /\ deleted_offers (finalize_events env registry ms) = []
  /\ created_matches (finalize_events env registry ms) = []
  /\ length (sent_mails (finalize_events env registry ms)) = length ms.
Proof.
  induction 1 as [| m ms Hm _ IH]; simpl; [auto |].
  destruct (deal_mail_of env registry m) as [msg |]; [| congruence].
  simpl. destruct IH as (-> & -> & -> & ->). auto.
Qed.

Section FinalizeExtras.

Variable env : Collaborators.

(** The body of the loop, when it raises: either nothing is on record for
    this match, or its deal mail is and the deletion was refused. *)
Lemma finalize_one_Raised m e w w' :
  finalize_one env m w = (Raised e, w') ->
  offers w' = offers w /\ matches w' = matches w
  /\ ((trace w' = trace w /\ forall x, e <> Refused (MatchDeleted x))
      \/ (e = Refused (MatchDeleted m)
          /\ exists msg, deal_mail_of env (offers w) m = Some msg
                         /\ trace w' = trace w ++ [MailSent msg])).
Proof.
  unfold finalize_one, old_offer, new_offer. intros H.
  apply bind_Raised in H. destruct H as [H | (old & w1 & Hold & H)].
  { apply Offer_by_id_Raised in H. destruct H as [-> ->].
    repeat split. left. split; [reflexivity | discriminate]. }
  apply Offer_by_id_Returned in Hold. destruct Hold as [Hold ->].
  apply bind_Raised in H. destruct H as [H | (new & w1 & Hnew & H)].
  { apply Offer_by_id_Raised in H. destruct H as [-> ->].
    repeat split. left. split; [reflexivity | discriminate]. }
  apply Offer_by_id_Returned in Hnew. destruct Hnew as [Hnew ->].
  apply bind_Raised in H. destruct H as [H | ([] & w1 & Hmail & H)].
  { apply send_mail_about_deal_Raised in H.
    destruct H as (Ht & Ho & Hm & He).
    repeat split; try assumption. left. split; [assumption |].
    intros x. destruct He as [-> | [msg ->]]; discriminate. }
  apply send_mail_about_deal_Returned in Hmail.
  destruct Hmail as (c1 & c2 & Hc1 & Hc2 & _ & ->).
  apply perform_Raised in H. destruct H as (_ & -> & ->). simpl.
  repeat split. right. split; [reflexivity |].
  exists (deal_mail env old new c1 c2).
  unfold deal_mail_of, parties. rewrite Hold, Hnew, Hc1, Hc2. auto.
Qed.

Lemma finalize_loop_Raised ms : forall w e w',
  for_each ms (finalize_one env) w = (Raised e, w') ->
  exists done m rest,
    ms = done ++ m :: rest
    /\ offers w' = offers w
    /\ matches w' = remove_all Match_eq_dec done (matches w)
    /\ Forall (fun x => deal_mail_of env (offers w) x <> None) done
    /\ ((trace w' = trace w ++ finalize_events env (offers w) done
         /\ forall x, e <> Refused (MatchDeleted x))
        \/ (e = Refused (MatchDeleted m)
            /\ exists msg,
                 deal_mail_of env (offers w) m = Some msg
                 /\ trace w' = trace w ++ finalize_events env (offers w) done
                                       ++ [MailSent msg])).
Proof.
  induction ms as [| m ms IH]; simpl; intros w e w' H.
  - discriminate.
  - apply bind_Raised in H. destruct H as [H | ([] & w1 & Hone & Hrest)].
    + apply finalize_one_Raised in H. destruct H as (Ho & Hm & Hcases).
      exists [], m, ms. simpl. rewrite app_nil_r.
      repeat split; auto.
    + apply finalize_one_Returned in Hone.
      destruct Hone as (old1 & new1 & msg1 & _ & Hmsg1 & _ & _ & ->).
      apply IH in Hrest. simpl in Hrest.
      destruct Hrest as (done & x & rest & -> & Ho & Hm & Hall & Hcases).
      exists (m :: done), x, rest. simpl. rewrite Hmsg1. simpl.
      repeat split; auto.
      * constructor; [congruence | assumption].
      * destruct Hcases as [[Ht Hne] | (He & msg & Hmsg & Ht)].
        -- left. split; [| exact Hne].
           rewrite Ht, <- app_assoc. reflexivity.
        -- right. split; [exact He |]. exists msg. split; [exact Hmsg |].
           rewrite Ht, <- app_assoc. reflexivity.
Qed.

(** X13: outside a dry run, a run of [process_approved_matches] that
    returns deletes exactly the matches both sides agreed to and sends
    one mail for each of them; every other match, whether declined,
    undecided or agreed by one side only, stays in the registry in its
    place, no offer is deleted and no match is created. *)
Theorem process_approved_matches_keeps_the_rest self w w'
    (Hdoit : _dry_run self = false)
    (Hrun : process_approved_matches env self w = (Returned tt, w')) :
  matches w' = filter (fun m => negb (match_approved m)) (matches w)
  /\ deleted_matches (events_since w w') = filter match_approved (matches w)
  /\ length (sent_mails (events_since w w'))
     = length (filter match_approved (matches w))
  /\ deleted_offers (events_since w w') = []
  /\ created_matches (events_since w w') = []
  /\ offers w' = offers w
  /\ (forall m, In m (matches w) ->
                new_agrees m <> Some true \/ old_agrees m <> Some true ->
                In m (matches w')).
Proof.
  rewrite process_approved_matches_unfold in Hrun by assumption.
  apply finalize_loop_Returned in Hrun.
  destruct Hrun as (Hoffers & Hmatches & Htrace & Hall).
  rewrite remove_all_filter in Hmatches.
  apply events_since_app in Htrace. rewrite Htrace.
  assert (Hsome : Forall (fun m => deal_mail_of env (offers w) m <> None)
                         (filter match_approved (matches w))).
  { eapply Forall_impl; [| exact Hall]. simpl.
    intros m (old & new & msg & _ & -> & _). discriminate. }
  destruct (deleted_matches_of_finalize env (offers w) _ Hsome)
    as (-> & -> & -> & ->).
  repeat (split; [auto; fail |]).
  intros m Hin Hnot. rewrite Hmatches. apply filter_In. split; [exact Hin |].
  unfold match_approved, truthy, is_True.
  destruct (new_agrees m) as [[] |], (old_agrees m) as [[] |];
    try reflexivity.
  destruct Hnot as [Hnot | Hnot]; congruence.
Qed.

(** X14: outside a dry run, when [process_approved_matches] raises, the
    agreed matches before the failing one have each got their mail and
    been deleted, the failing match and the ones after it are still in
    the registry, and nothing is on record for the failing match unless
    the failure is the refusal of its deletion, in which case its mail is
    the last effect.  No match is deleted without its mail. *)
Theorem process_approved_matches_interrupted self w e w'
    (Hdoit : _dry_run self = false)
    (Hdistinct : NoDup (matches w))
    (Hrun : process_approved_matches env self w = (Raised e, w')) :
  exists done m rest,
    filter match_approved (matches w) = done ++ m :: rest
    /\ deleted_matches (events_since w w') = done
    /\ In m (matches w') /\ incl rest (matches w')
    /\ (forall x, In x done -> ~ In x (matches w'))
    /\ offers w' = offers w
    /\ ((events_since w w' = finalize_events env (offers w) done
         /\ forall x, e <> Refused (MatchDeleted x))
        \/ (e = Refused (MatchDeleted m)
            /\ exists msg,
                 deal_mail_of env (offers w) m = Some msg
                 /\ events_since w w'
                    = finalize_events env (offers w) done ++ [MailSent msg])).
Proof.
  rewrite process_approved_matches_unfold in Hrun by assumption.
  apply finalize_loop_Raised in Hrun.
  destruct Hrun as (done & m & rest & Hsplit & Ho & Hm & Hall & Hcases).
  exists done, m, rest.
  assert (Hnodup : NoDup (done ++ m :: rest))
    by (rewrite <- Hsplit; apply NoDup_filter; exact Hdistinct).
  assert (Hsub : forall x, In x (done ++ m :: rest) -> In x (matches w)).
  { intros x Hx. rewrite <- Hsplit in Hx. apply filter_In in Hx. tauto. }
  destruct (deleted_matches_of_finalize env (offers w) done Hall)
    as (Hdel & _ & _ & _).
  split; [exact Hsplit |].
  split.
  { destruct Hcases as [[Ht _] | (_ & msg & _ & Ht)];
      apply events_since_app in Ht; rewrite Ht.
    - exact Hdel.
    - rewrite deleted_matches_app, Hdel. simpl. apply app_nil_r. }
  split.
  { rewrite Hm. apply In_remove_all. split.
    - apply Hsub, in_or_app. right. left. reflexivity.
    - apply NoDup_remove_2 in Hnodup. intros Hin. apply Hnodup.
      apply in_or_app. left. exact Hin. }
  split.
  { intros x Hx. rewrite Hm. apply In_remove_all. split.
    - apply Hsub, in_or_app. right. right. exact Hx.
    - intros Hin. apply NoDup_app_remove_l in Hnodup as Htail.
      revert Hnodup Hin Hx. clear. intros Hnodup Hin Hx.
      induction done as [| d done IH]; simpl in *; [contradiction |].
      inversion Hnodup as [| ? ? Hd Hnd]; subst.
      destruct Hin as [-> | Hin].
      + apply Hd, in_or_app. right. right. exact Hx.
      + exact (IH Hnd Hin). }
  split.
  { intros x Hx. rewrite Hm, In_remove_all. tauto. }
  split; [exact Ho |].
  destruct Hcases as [[Ht Hne] | (He & msg & Hmsg & Ht)].
  - left. split; [apply events_since_app; exact Ht | exact Hne].
  - right. split; [exact He |]. exists msg.
    split; [exact Hmsg | apply events_since_app; exact Ht].
Qed.

End FinalizeExtras.

Lemma process_approved_matches_keeps_the_rest_witness :
  _dry_run Sample.committing = false
  /\ process_approved_matches Sample.env Sample.committing Sample.world_cleaned
     = (Returned tt,
        snd (process_approved_matches Sample.env Sample.committing
               Sample.world_cleaned))
  /\ In Sample.recent
        (matches (snd (process_approved_matches Sample.env Sample.committing
                         Sample.world_cleaned))).
Proof.
  assert (Hdoit : _dry_run Sample.committing = false) by reflexivity.
  assert (Hrun : process_approved_matches Sample.env Sample.committing
                   Sample.world_cleaned
                 = (Returned tt,
                    snd (process_approved_matches Sample.env Sample.committing
                           Sample.world_cleaned)))
    by (vm_compute; reflexivity).
  split; [exact Hdoit | split; [exact Hrun |]].
  apply (process_approved_matches_keeps_the_rest Sample.env Sample.committing
           Sample.world_cleaned _ Hdoit Hrun).
  - vm_compute. auto.
  - right. vm_compute. discriminate.
Defined.

Lemma process_approved_matches_interrupted_witness :
  _dry_run Sample.committing = false
  /\ NoDup (matches Sample.settled)
  /\ process_approved_matches Sample.env_no_delete Sample.committing
       Sample.settled
     = (Raised (Refused (MatchDeleted Sample.agreed)), Sample.settled_refused)
  /\ exists m, In m (filter match_approved (matches Sample.settled))
               /\ In m (matches Sample.settled_refused).
Proof.
  assert (Hdoit : _dry_run Sample.committing = false) by reflexivity.
  assert (Hdistinct : NoDup (matches Sample.settled))
    by (repeat constructor; simpl; tauto).
  assert (Hrun : process_approved_matches Sample.env_no_delete
                   Sample.committing Sample.settled
                 = (Raised (Refused (MatchDeleted Sample.agreed)),
                    Sample.settled_refused))
    by (vm_compute; reflexivity).
  split; [exact Hdoit | split; [exact Hdistinct | split; [exact Hrun |]]].
  destruct (process_approved_matches_interrupted Sample.env_no_delete
              Sample.committing Sample.settled _ Sample.settled_refused
              Hdoit Hdistinct Hrun)
    as (done & m & rest & Hsplit & _ & Hin & _).
  exists m. split; [| exact Hin].
  rewrite Hsplit. apply in_or_app. right. left. reflexivity.
Defined.

(** * The phases of a run *)

Section MainExtras.

Variable env : Collaborators.

Lemma created_not_approved pairs done :
  Forall2 proposal_of pairs done ->
  filter match_approved (map (fun t => fst (fst t)) done) = []
  /\ filter (fun m => negb (match_approved m)) (map (fun t => fst (fst t)) done)
     = map (fun t => fst (fst t)) done.
Proof.
  induction 1 as [| p t pairs done Hpt _ [IH1 IH2]]; simpl; [auto |].
  unfold proposal_of in Hpt. destruct Hpt as (_ & _ & Ho & Hn & _).
  unfold match_approved. rewrite Ho, Hn. simpl.
  split; [exact IH1 | f_equal; exact IH2].
Qed.

(** X15: a run of [main] with [--doit] that returns consists of three
    phases in this order: the cleanup, then for every pair that the
    pairing of the candidates of the cleaned registry yields a new match
    and its two mails, then for every match of the cleaned registry both
    sides agreed to its deal mail and its deletion.  The matches created
    in this run are not finalized in it: they are all in the registry at
    the end, behind the old matches that were not agreed. *)
Theorem main_phases w w'
    (Hrun : main env true w = (Returned tt, w')) :
  exists w1 done,
    clean env (mkMatchmaker false) w = (Returned tt, w1)
    /\ Forall2 proposal_of
         (pair_up (get_match_candidates env (offers w1) (matches w1) (clock w1)))
         done
    /\ events_since w w'
       = events_since w w1
         ++ flat_map proposal_events done
         ++ finalize_events env (offers w1)
              (filter match_approved (matches w1))
    /\ matches w'
       = filter (fun m => negb (match_approved m)) (matches w1)
         ++ map (fun t => fst (fst t)) done
    /\ offers w' = offers w1.
Proof.
  unfold main in Hrun. simpl in Hrun.
  apply bind_Returned in Hrun. destruct Hrun as ([] & w1 & Hclean & Hrun).
  apply bind_Returned in Hrun. destruct Hrun as (pairs & w1' & Hfind & Hrun).
  apply bind_Returned in Hrun. destruct Hrun as ([] & w2 & Hprop & Hfin).
  unfold find_matches, bind, log, ret in Hfind. simpl in Hfind.
  inversion Hfind; subst pairs w1'; clear Hfind.
  rewrite process_found_matches_unfold in Hprop by reflexivity.
  apply propose_loop_outcome in Hprop. simpl in Hprop.
  destruct Hprop as (Ho2 & done & partial & Ht2 & _ & Hall & Hret & Hm2 & _).
  destruct (Hret eq_refl) as [-> Hlen]. clear Hret.
  rewrite Hlen, firstn_all in Hall. simpl in Hm2.
  rewrite !app_nil_r in *.
  rewrite process_approved_matches_unfold in Hfin by reflexivity.
  apply finalize_loop_Returned in Hfin.
  destruct Hfin as (Ho & Hm & Ht & _).
  rewrite remove_all_filter in Hm.
  destruct (created_not_approved _ _ Hall) as [Hnone Hkeep].
  rewrite Hm2, filter_app, Hnone, app_nil_r, Ho2 in Ht.
  rewrite Hm2, filter_app, Hkeep in Hm.
  exists w1, done.
  split; [exact Hclean |]. split; [exact Hall |].
  assert (Hc := clean_Returned env _ _ _ Hclean).
  assert (Htc := f_equal trace Hc). simpl in Htc.
  split; [| split; [exact Hm | congruence]].
  rewrite (events_since_app _ _ _ Htc).
  apply events_since_app. rewrite Ht, Ht2, Htc, <- !app_assoc. reflexivity.
Qed.

End MainExtras.

Lemma main_phases_witness :
  main Sample.env true Sample.world = (Returned tt, More.world_done)
  /\ exists w1 (done : list (Match * Mail * Mail)),
       clean Sample.env (mkMatchmaker false) Sample.world = (Returned tt, w1)
       /\ matches More.world_done
          = filter (fun m => negb (match_approved m)) (matches w1)
            ++ map (fun t => fst (fst t)) done
       /\ length done = 1%nat.
Proof.
  assert (Hrun : main Sample.env true Sample.world
                 = (Returned tt, More.world_done))
    by (vm_compute; reflexivity).
  split; [exact Hrun |].
  destruct (main_phases Sample.env Sample.world More.world_done Hrun)
    as (w1 & done & Hclean & Hall & _ & Hm & _).
  exists w1, done. split; [exact Hclean | split; [exact Hm |]].
  assert (E : w1 = Sample.world_cleaned).
  { assert (H : clean Sample.env (mkMatchmaker false) Sample.world
                = (Returned tt, Sample.world_cleaned))
      by (vm_compute; reflexivity).
    rewrite H in Hclean. inversion Hclean. reflexivity. }
  subst w1. apply Forall2_length in Hall. rewrite <- Hall.
  vm_compute. reflexivity.
Defined.

(** * The suggestion mail on its own *)

Section SuggestionMail.

Variable env : Collaborators.

(** X17: however [_send_mail_about_match] ends, it sends at most one
    mail and only to the owner of [my_offer].  When it returns, the mail
    carries the amount of the other offer converted from the other
    offer's currency into the currency of [my_offer], and the secret of
    [my_offer] followed by the secret of the match.  Without a rate it
    raises before anything is logged or sent, and when the mail server
    refuses the mail nothing is on record either. *)
Theorem send_mail_about_match_outcome my_offer their_offer sec w r w'
    (Hrun : _send_mail_about_match env my_offer their_offer sec w = (r, w')) :
  (exists c msg,
     r = Returned tt
     /\ convert env (amount their_offer)
                (currency_iso (country env their_offer))
                (currency_iso (country env my_offer)) = Some c
     /\ events_since w w' = [MailSent msg]
     /\ to msg = ToOne (email my_offer)
     /\ lookup "{%THEIR_AMOUNT_CONVERTED%}" (substitutions (text msg))
        = Some (VNum c)
     /\ lookup "{%SECRET%}" (substitutions (text msg))
        = Some (VStr (String.append (secret my_offer) sec)))
  \/ (r = Raised RateUnavailable /\ w' = w
      /\ convert env (amount their_offer)
                 (currency_iso (country env their_offer))
                 (currency_iso (country env my_offer)) = None)
  \/ (exists msg,
        r = Raised (Refused (MailSent msg))
        /\ to msg = ToOne (email my_offer)
        /\ events_since w w' = []
        /\ logs w' = logs w ++ [LogSendingMatchMail (email my_offer)]).
Proof.
  destruct r as [[] | e].
  - left. apply send_mail_about_match_Returned in Hrun.
    destruct Hrun as (c & Hc & ->).
    exists c, (suggested_mail env my_offer their_offer sec c).
    split; [reflexivity | split; [exact Hc |]].
    split; [apply events_since_app; reflexivity |].
    repeat split; reflexivity.
  - right. unfold _send_mail_about_match, mail_send, log in Hrun.
    apply bind_Raised in Hrun. destruct Hrun as [H | (c & w1 & Hc & H)].
    { apply currency_convert_Raised in H. destruct H as (Hnone & -> & ->).
      left. auto. }
    apply currency_convert_Returned in Hc. destruct Hc as [Hc ->].
    apply bind_Raised in H. destruct H as [H | ([] & w2 & Hl & H)];
      [discriminate |].
    inversion Hl; subst w2; clear Hl.
    apply perform_Raised in H. destruct H as (_ & -> & ->).
    right. eexists. split; [reflexivity |]. split; [reflexivity |].
    split; [apply events_since_same_trace; reflexivity | reflexivity].
Qed.

End SuggestionMail.

Lemma send_mail_about_match_outcome_witness :
  exists w',
    _send_mail_about_match Sample.env Sample.alice Sample.bob "s"
      Sample.unmatched = (Returned tt, w')
    /\ exists msg, events_since Sample.unmatched w' = [MailSent msg]
                   /\ to msg = ToOne (email Sample.alice).
Proof.
  eexists. split; [vm_compute; reflexivity |].
  destruct (send_mail_about_match_outcome Sample.env Sample.alice Sample.bob
              "s" Sample.unmatched (Returned tt) _ eq_refl)
    as [(c & msg & _ & _ & Hev & Hto & _) | [(H & _) | (msg & H & _)]];
    [| discriminate | discriminate].
  exists msg. split; [exact Hev | exact Hto].
Defined.

(** * The deal mail on its own *)

Section DealMailOutcome.

Variable env : Collaborators.

(** X18: however [_send_mail_about_deal] ends, it sends at most one
    mail.  When it returns, the mail goes to both owners together and,
    unlike the suggestion mail, discloses both addresses; each amount is
    converted into the currency of the other offer.  Without one of the
    two rates it raises before anything is logged or sent, and when the
    mail server refuses the mail nothing but the log line is left. *)
Theorem send_mail_about_deal_outcome old new w r w'
    (Hrun : _send_mail_about_deal env old new w = (r, w')) :
  (exists c1 c2 msg,
     r = Returned tt
     /\ convert env (amount old) (currency_iso (country env old))
                (currency_iso (country env new)) = Some c1
     /\ convert env (amount new) (currency_iso (country env new))
                (currency_iso (country env old)) = Some c2
     /\ events_since w w' = [MailSent msg]
     /\ to msg = ToList [email old; email new]
     /\ lookup "{%OLD_EMAIL%}" (substitutions (text msg))
        = Some (VStr (email old))
     /\ lookup "{%NEW_EMAIL%}" (substitutions (text msg))
        = Some (VStr (email new))
     /\ lookup "{%OLD_AMOUNT_CONVERTED%}" (substitutions (text msg))
        = Some (VNum c1)
     /\ lookup "{%NEW_AMOUNT_CONVERTED%}" (substitutions (text msg))
        = Some (VNum c2))
  \/ (r = Raised RateUnavailable /\ w' = w
      /\ (convert env (amount old) (currency_iso (country env old))
                  (currency_iso (country env new)) = None
          \/ convert env (amount new) (currency_iso (country env new))
                     (currency_iso (country env old)) = None))
  \/ (exists msg,
        r = Raised (Refused (MailSent msg))
        /\ to msg = ToList [email old; email new]
        /\ events_since w w' = []
        /\ logs w' = logs w ++ [LogSendingDealMail (email old) (email new)]).
Proof.
  destruct r as [[] | e].
  - left. apply send_mail_about_deal_Returned in Hrun.
    destruct Hrun as (c1 & c2 & Hc1 & Hc2 & _ & ->).
    exists c1, c2, (deal_mail env old new c1 c2).
    split; [reflexivity | split; [exact Hc1 | split; [exact Hc2 |]]].
    split; [apply events_since_app; reflexivity |].
    repeat split; reflexivity.
  - right. unfold _send_mail_about_deal, mail_send, log in Hrun.
    apply bind_Raised in Hrun. destruct Hrun as [H | (c1 & w1 & Hc1 & H)].
    { apply currency_convert_Raised in H. destruct H as (Hnone & -> & ->).
      left. auto. }
    apply currency_convert_Returned in Hc1. destruct Hc1 as [Hc1 ->].
    apply bind_Raised in H. destruct H as [H | (c2 & w1 & Hc2 & H)].
    { apply currency_convert_Raised in H. destruct H as (Hnone & -> & ->).
      left. auto. }
    apply currency_convert_Returned in Hc2. destruct Hc2 as [Hc2 ->].
    apply bind_Raised in H. destruct H as [H | ([] & w2 & Hl & H)];
      [discriminate |].
    inversion Hl; subst w2; clear Hl.
    apply perform_Raised in H. destruct H as (_ & -> & ->).
    right. eexists. split; [reflexivity |]. split; [reflexivity |].
    split; [apply events_since_same_trace; reflexivity | reflexivity].
Qed.

End DealMailOutcome.

Lemma send_mail_about_deal_outcome_witness :
  exists w',
    _send_mail_about_deal Sample.env Sample.alice Sample.bob Sample.settled
    = (Returned tt, w')
    /\ exists msg, events_since Sample.settled w' = [MailSent msg]
                   /\ lookup "{%NEW_EMAIL%}" (substitutions (text msg))
                      = Some (VStr (email Sample.bob)).
Proof.
  eexists. split; [vm_compute; reflexivity |].
  destruct (send_mail_about_deal_outcome Sample.env Sample.alice Sample.bob
              Sample.settled (Returned tt) _ eq_refl)
    as [(c1 & c2 & msg & _ & _ & _ & Hev & _ & _ & Hnew & _)
       | [(H & _) | (msg & H & _)]];
    [| discriminate | discriminate].
  exists msg. split; [exact Hev | exact Hnew].
Defined.
